(** * nft-mint: the archive acquisition and launch pipeline of [main.py]

    A shallow embedding of [src/main.py].  Python strings are [string],
    paths are strings that the operating system resolves to a location (the
    list of directory names from the root), the filesystem is a tree whose
    directories list their entries in the order the OS reports them, and the
    effectful code runs in a state-and-exception monad over a [world]. *)

From Stdlib Require Import String Ascii List ZArith Lia Bool Arith.
Import ListNotations.
Open Scope string_scope.
Set Warnings "-register-all".

(** ** Python string operations *)

Module Str.

(** [s.split(sep)] for a one-character separator. *)
Fixpoint split (sep : ascii) (s : string) : list string :=
  match s with
  | EmptyString => [EmptyString]
  | String c s' =>
      if Ascii.eqb c sep then EmptyString :: split sep s'
      else match split sep s' with
           | [] => [String c EmptyString]
           | w :: ws => String c w :: ws
           end
  end.

(** [sep.join(parts)]. *)
Definition join (sep : string) (parts : list string) : string :=
  String.concat sep parts.

(** [s.startswith(p)]. *)
Definition startswith (s p : string) : bool := String.prefix p s.

(** [s.endswith(suffix)]: some tail of [s] is [suffix]. *)
Fixpoint endswith (s suffix : string) : bool :=
  String.eqb s suffix ||
  match s with
  | EmptyString => false
  | String _ s' => endswith s' suffix
  end.

(** [c in s] for a character. *)
Fixpoint mem (c : ascii) (s : string) : bool :=
  match s with
  | EmptyString => false
  | String d s' => Ascii.eqb c d || mem c s'
  end.

(** Truth value of an optional string: [None] and the empty string are
    false. *)
Definition truthy (o : option string) : bool :=
  match o with
  | None => false
  | Some EmptyString => false
  | Some _ => true
  end.

End Str.

(** ** Paths (module [posixpath]) and their resolution *)

Definition loc := list string.

Definition sep : ascii := "/"%char.

(** [os.path.join(a, b)]. *)
Definition path_join (a b : string) : string :=
  if Str.startswith b "/" then b
  else if (String.eqb a EmptyString || Str.endswith a "/")%bool then a ++ b
  else a ++ "/" ++ b.

(** Lexical resolution of path components against a base location: empty
    and [.] components stay, [..] goes to the parent (the root is its own
    parent). *)
Fixpoint resolve (base : loc) (comps : list string) : loc :=
  match comps with
  | [] => base
  | c :: cs =>
      if String.eqb c EmptyString then resolve base cs
      else if String.eqb c "." then resolve base cs
      else if String.eqb c ".." then resolve (removelast base) cs
      else resolve (base ++ [c])%list cs
  end.

(** Where the resolution of a path starts: at the root for an absolute
    path, at the working directory otherwise. *)
Definition start_of (cwd : loc) (p : string) : loc :=
  if Str.startswith p "/" then [] else cwd.

(** The location a path string denotes for a process whose working
    directory is [cwd]. *)
Definition locate (cwd : loc) (p : string) : loc :=
  if Str.startswith p "/" then resolve [] (Str.split sep p)
  else resolve cwd (Str.split sep p).

(** [q] lies in the directory at [d] (or is [d] itself). *)
Definition inside (d q : loc) : Prop := exists rest, q = (d ++ rest)%list.

Fixpoint insideb (d q : loc) : bool :=
  match d, q with
  | [], _ => true
  | x :: d', y :: q' => String.eqb x y && insideb d' q'
  | _ :: _, [] => false
  end.

Definition loc_eqb (p q : loc) : bool := insideb p q && insideb q p.

(** ** Archive member names (module [zipfile]) *)

(** [ZipFile._extract_member] of the standard library builds the destination
    name of a member: the name is split at the separator and the empty, [.]
    and [..] parts are dropped before it is joined to the target path.  This
    is the POSIX case, where the separator is [/] and names have no drive;
    the result is then normalized, which does not change the location it
    denotes. *)
Definition invalid_path_part (x : string) : bool :=
  (String.eqb x EmptyString || String.eqb x "." || String.eqb x "..")%bool.

Definition valid_parts (filename : string) : list string :=
  filter (fun x => negb (invalid_path_part x)) (Str.split sep filename).

Definition member_arcname (filename : string) : string :=
  Str.join "/" (valid_parts filename).

Definition member_targetpath (targetpath filename : string) : string :=
  path_join targetpath (member_arcname filename).

(** ** The filesystem *)

(** A regular file carries its content and its executable permission bit; a
    directory lists its entries in the order the operating system reports
    them ([os.scandir]). *)
Inductive node : Type :=
| File (data : string) (xbit : bool)
| Dir (entries : list (string * node)).

Module FS.

Fixpoint entry_find (n : string) (es : list (string * node)) : option node :=
  match es with
  | [] => None
  | (m, x) :: es' => if String.eqb n m then Some x else entry_find n es'
  end.

(** Replace the entry in place, or add it at the end of the listing. *)
Fixpoint entry_set (n : string) (v : node) (es : list (string * node))
  : list (string * node) :=
  match es with
  | [] => [(n, v)]
  | (m, x) :: es' =>
      if String.eqb n m then (m, v) :: es' else (m, x) :: entry_set n v es'
  end.

Fixpoint entry_del (n : string) (es : list (string * node))
  : list (string * node) :=
  match es with
  | [] => []
  | (m, x) :: es' =>
      if String.eqb n m then entry_del n es' else (m, x) :: entry_del n es'
  end.

Fixpoint lookup (t : node) (p : loc) : option node :=
  match p with
  | [] => Some t
  | c :: p' =>
      match t with
      | Dir es =>
          match entry_find c es with
          | Some ch => lookup ch p'
          | None => None
          end
      | File _ _ => None
      end
  end.

(** Set ([Some]) or delete ([None]) the entry at [p]; the parent has to be an
    existing directory, and the root is never replaced. *)
Fixpoint store (t : node) (p : loc) (v : option node) : option node :=
  match p with
  | [] => None
  | c :: p' =>
      match t with
      | File _ _ => None
      | Dir es =>
          match p' with
          | [] =>
              Some (Dir (match v with
                         | Some n => entry_set c n es
                         | None => entry_del c es
                         end))
          | _ :: _ =>
              match entry_find c es with
              | Some ch =>
                  match store ch p' v with
                  | Some ch' => Some (Dir (entry_set c ch' es))
                  | None => None
                  end
              | None => None
              end
          end
      end
  end.

(** [os.makedirs] on a location: every missing directory on the way from
    the root is created; a regular file on the way is an error. *)
Fixpoint mkdirs (t : node) (p : loc) : option node :=
  match t with
  | File _ _ => None
  | Dir es =>
      match p with
      | [] => Some t
      | c :: p' =>
          match mkdirs (match entry_find c es with
                        | Some ch => ch
                        | None => Dir []
                        end) p' with
          | Some ch' => Some (Dir (entry_set c ch' es))
          | None => None
          end
      end
  end.

Definition isdir (t : node) (p : loc) : bool :=
  match lookup t p with Some (Dir _) => true | _ => false end.

(** [os.makedirs(path, exist_ok=True)] on the components of a path: they are
    gone through from [base]; a directory that is missing is made, [..] goes
    up, an empty component and [.] stay, and a regular file on the way is an
    error.  So [os.makedirs('a/../b')] makes [a] as well as [b]. *)
Fixpoint makedirs (t : node) (base : loc) (comps : list string)
  : option node :=
  match comps with
  | [] => Some t
  | c :: cs =>
      if String.eqb c EmptyString then makedirs t base cs
      else if String.eqb c "." then makedirs t base cs
      else if String.eqb c ".." then makedirs t (removelast base) cs
      else
        match lookup t (base ++ [c])%list with
        | Some (Dir _) => makedirs t (base ++ [c])%list cs
        | Some (File _ _) => None
        | None =>
            match store t (base ++ [c])%list (Some (Dir [])) with
            | Some t' => makedirs t' (base ++ [c])%list cs
            | None => None
            end
        end
  end.

(** The system resolves a path one component at a time: what has been
    reached must be an existing directory before the next component is
    looked at. *)
Fixpoint reachable (t : node) (base : loc) (comps : list string) : bool :=
  match comps with
  | [] => true
  | c :: cs => isdir t base && reachable t (resolve base [c]) cs
  end.

Definition isfile (t : node) (p : loc) : bool :=
  match lookup t p with Some (File _ _) => true | _ => false end.

Definition exists_ (t : node) (p : loc) : bool :=
  match lookup t p with Some _ => true | None => false end.

(** The regular file at a location, if there is one. *)
Definition file_at (t : node) (p : loc) : option (string * bool) :=
  match lookup t p with
  | Some (File d x) => Some (d, x)
  | _ => None
  end.

(** [open(p, 'wb')] followed by writing [data]: the file is created (not
    executable) or truncated (keeping its mode). *)
Definition write (t : node) (p : loc) (data : string) : option node :=
  match lookup t p with
  | Some (Dir _) => None
  | Some (File _ x) => store t p (Some (File data x))
  | None => store t p (Some (File data false))
  end.

(** [f.write(chunk)] on a file opened for writing: the chunk is added at
    the end. *)
Definition append (t : node) (p : loc) (chunk : string) : option node :=
  match lookup t p with
  | Some (File d x) => store t p (Some (File (d ++ chunk) x))
  | _ => None
  end.

(** [os.mkdir(p)]. *)
Definition mkdir (t : node) (p : loc) : option node :=
  match lookup t p with
  | Some _ => None
  | None => store t p (Some (Dir []))
  end.

(** [os.remove(p)]: regular files only. *)
Definition remove (t : node) (p : loc) : option node :=
  match lookup t p with
  | Some (File _ _) => store t p None
  | _ => None
  end.

(** [shutil.rmtree(p)]: directories only, with all they contain. *)
Definition rmtree (t : node) (p : loc) : option node :=
  match lookup t p with
  | Some (Dir _) => store t p None
  | _ => None
  end.

(** [shutil.copystat] on a regular file, as far as the tree records it: the
    permission bit becomes that of the source. *)
Definition chmod (t : node) (p : loc) (x : bool) : option node :=
  match lookup t p with
  | Some (File d _) => store t p (Some (File d x))
  | _ => None
  end.

Definition dirnames (es : list (string * node)) : list string :=
  map fst (filter (fun e => match snd e with Dir _ => true | _ => false end) es).

Definition filenames (es : list (string * node)) : list string :=
  map fst (filter (fun e => match snd e with File _ _ => true | _ => false end) es).

(** [os.walk(top)], top-down: the triple of a directory, then the walks of
    its sub-directories in listing order.  Nothing is produced for what is
    not a directory. *)
Fixpoint walk (top : string) (t : node) {struct t}
  : list (string * list string * list string) :=
  match t with
  | File _ _ => []
  | Dir es =>
      (top, dirnames es, filenames es) ::
      (fix subdirs (l : list (string * node)) :=
         match l with
         | [] => []
         | (n, ch) :: l' => (walk (path_join top n) ch ++ subdirs l')%list
         end) es
  end.

End FS.

(** ** Exceptions, console lines and the environment *)

(** The classes of [Exception] the program can meet. *)
Inductive exc_class : Type :=
| OSError          (* filesystem and process errors, with their subclasses *)
| ConnectionError  (* requests.exceptions *)
| Timeout
| HTTPError
| MissingSchema
| BadZipFile       (* zipfile *)
| ValueError.

(** [KeyboardInterrupt] and [SystemExit] are not subclasses of
    [Exception]. *)
Inductive exn : Type :=
| KeyboardInterrupt
| SystemExit (code : Z)
| Exception (c : exc_class).

Inductive result (A : Type) : Type :=
| Ok (a : A)
| Raise (e : exn).
Arguments Ok {A} a.
Arguments Raise {A} e.

Inductive platform : Type := Nt | Posix.

(** What [format_nft_info] interpolates: the token, the joined traits, and
    the rarity (tenths of a percent), mint price and estimated value
    (thousandths). *)
Record nft_info : Type := {
  info_token : string;
  info_traits : string;
  info_rarity : Z;
  info_mint : Z;
  info_value : Z
}.

(** Console output: one constructor for each [print] of the source, with the
    values its f-string interpolates.  Colours are layout only. *)
Inductive line : Type :=
| Banner
| Rule
| ConfigTitle
| ConfigWallet (head tail : string)
| ConfigCollection (collection : string)
| SuccessTitle
| SuccessItem (nft : nft_info)
| FailureTitle
| FailureHead (title : string)
| FailureMsg (msg : string)
| FailureDetails (details : string)
| Downloading
| Installing
| EngineInit
| EngineConnect
| EngineGenerate
| NftGenerated (token : string) (rarity : Z)
| Minting
| Minted
| MintRate (permille : Z)
| MintGas (gas : Z)
| MintValue (value : Z)
| Interrupted
| Fatal (e : exc_class).

Record request : Type := {
  req_url : string;
  req_stream : bool;
  req_verify : bool;
  req_timeout : Z;
  req_headers : list (string * string)
}.

(** The far end of [requests.get]: no response at all, or a status line and
    the chunks of the body. *)
Inductive http_outcome : Type :=
| NoResponse (c : exc_class)
| Response (status : Z) (chunks : list string).

Record zip_entry : Type := {
  zip_filename : string;
  zip_data : string
}.

(** A process started with [subprocess.Popen]. *)
Record spawn : Type := {
  sp_argv : list string;
  sp_shell : bool;
  sp_no_window : bool
}.

(** The blocking operations, at which the outside can make the program
    fail. *)
Inductive op : Type :=
| OpRequest (url : string)
| OpRecv (url : string)
| OpOpen (path : string)
| OpWrite (path : string)
| OpMakedirs (path : string)
| OpZipFile (path : string)
| OpExtract (filename : string)
| OpRead (path : string)
| OpCopystat (src dst : string)
| OpRmtree (path : string)
| OpRemove (path : string)
| OpPopen (argv : list string)
| OpSleep (ms : Z).

Inductive signal : Type :=
| Interrupt
| Fault (c : exc_class).

(** The namespace [parse_args] returns. *)
Record namespace : Type := {
  arg_wallet : option string;
  arg_collection : option string;
  arg_num_nfts : Z;
  arg_zip : option string
}.

(** [argparse] either returns a namespace or prints its usage or help text
    and leaves through [sys.exit]. *)
Inductive cli : Type :=
| Parsed (args : namespace)
| Exits (code : Z).

(** Everything the program does not decide itself: the platform, the command
    line, the remote end, the archive decoder, failures and interrupts of
    the [k]-th blocking operation, the random source, the clock, and the hex
    digests of [sha256] over the clock. *)
Record env : Type := {
  os_name : platform;
  command_line : cli;
  http : request -> http_outcome;
  zip_members : string -> option (list zip_entry);
  signals : nat -> op -> option signal;
  random : nat -> Z;
  clock : nat -> Z;
  digest : nat -> string
}.

Record world : Type := {
  fs : node;
  cwd : loc;
  stdout : list line;
  procs : list spawn;
  net : list request;
  steps : nat;
  draws : nat
}.

Definition set_fs (t : node) (w : world) : world :=
  {| fs := t; cwd := cwd w; stdout := stdout w; procs := procs w;
     net := net w; steps := steps w; draws := draws w |}.

Definition add_line (l : line) (w : world) : world :=
  {| fs := fs w; cwd := cwd w; stdout := (stdout w ++ [l])%list;
     procs := procs w; net := net w; steps := steps w; draws := draws w |}.

Definition add_proc (p : spawn) (w : world) : world :=
  {| fs := fs w; cwd := cwd w; stdout := stdout w;
     procs := (procs w ++ [p])%list; net := net w; steps := steps w;
     draws := draws w |}.

Definition add_request (r : request) (w : world) : world :=
  {| fs := fs w; cwd := cwd w; stdout := stdout w; procs := procs w;
     net := (net w ++ [r])%list; steps := steps w; draws := draws w |}.

Definition tick (w : world) : world :=
  {| fs := fs w; cwd := cwd w; stdout := stdout w; procs := procs w;
     net := net w; steps := S (steps w); draws := draws w |}.

Definition drawn (w : world) : world :=
  {| fs := fs w; cwd := cwd w; stdout := stdout w; procs := procs w;
     net := net w; steps := steps w; draws := S (draws w) |}.

(** ** The state and exception monad *)

Definition M (A : Type) : Type := world -> result A * world.

Definition ret {A} (a : A) : M A := fun w => (Ok a, w).

Definition bind {A B} (m : M A) (k : A -> M B) : M B :=
  fun w =>
    match m w with
    | (Ok a, w') => k a w'
    | (Raise e, w') => (Raise e, w')
    end.

Definition raise {A} (e : exn) : M A := fun w => (Raise e, w).

Declare Scope py_scope.
Delimit Scope py_scope with py.
Notation "x <- m ;; k" := (bind m (fun x => k))
  (at level 61, m at next level, right associativity) : py_scope.
Notation "m ;; k" := (bind m (fun _ => k))
  (at level 61, right associativity) : py_scope.
Open Scope py_scope.

(** [print(...)]. *)
Definition print (l : line) : M unit := fun w => (Ok tt, add_line l w).

(** A filesystem call at a location: the change it makes, or [OSError]. *)
Definition fs_at (f : node -> loc -> option node) (p : loc) : M unit :=
  fun w =>
    match f (fs w) p with
    | Some t => (Ok tt, set_fs t w)
    | None => (Raise (Exception OSError), w)
    end.

(** The system can resolve the path: it is not empty ([ENOENT]) and every
    directory it goes through exists.  There are no symbolic links, so a path
    that resolves names the location that [locate] computes. *)
Definition resolves (w : world) (path : string) : bool :=
  negb (String.eqb path EmptyString) &&
  FS.reachable (fs w) (start_of (cwd w) path) (Str.split sep path).

(** What a path names for the process, if anything. *)
Definition node_at (w : world) (path : string) : option node :=
  if resolves w path then FS.lookup (fs w) (locate (cwd w) path) else None.

(** A filesystem call on a path: it fails when the path does not resolve. *)
Definition fs_call (f : node -> loc -> option node) (path : string)
  : M unit :=
  fun w =>
    if resolves w path then fs_at f (locate (cwd w) path) w
    else (Raise (Exception OSError), w).

Definition NL : string := String "010"%char EmptyString.
Definition DQ : string := String "034"%char EmptyString.

(** ** The program *)

Section Program.

Variable E : env.

(** A blocking operation: the [k]-th one fails or is interrupted when the
    environment says so. *)
Definition blocking {A} (o : op) (body : M A) : M A :=
  fun w =>
    match signals E (steps w) o with
    | Some Interrupt => (Raise KeyboardInterrupt, tick w)
    | Some (Fault c) => (Raise (Exception c), tick w)
    | None => body (tick w)
    end.

Definition sleep (ms : Z) : M unit := blocking (OpSleep ms) (ret tt).

(** [random.choice(options)]. *)
Definition random_choice (options : list string) : M string :=
  fun w =>
    (Ok (nth (Z.to_nat (random E (draws w) mod Z.of_nat (length options)))
             options EmptyString),
     drawn w).

(** [random.uniform(lo, hi)] in fixed point: both bounds and the result
    are counted in the unit of the rounding that follows. *)
Definition random_uniform (lo hi : Z) : M Z :=
  fun w => (Ok (lo + random E (draws w) mod (hi - lo + 1))%Z, drawn w).

Definition time_time : M Z := fun w => (Ok (clock E (draws w)), drawn w).

(** *** class NFTConfig *)

Record NFTConfig : Type := {
  api_endpoint : string;
  wallet_address : string;
  version : string;
  author : string;
  timeout : Z;
  zip_url : string;
  download_path : string;
  extract_path : string;
  min_rarity_score : Z;
  max_mint_price : Z       (* thousandths *)
}.

Definition set_zip_url (url : string) (c : NFTConfig) : NFTConfig :=
  {| api_endpoint := api_endpoint c; wallet_address := wallet_address c;
     version := version c; author := author c; timeout := timeout c;
     zip_url := url; download_path := download_path c;
     extract_path := extract_path c;
     min_rarity_score := min_rarity_score c;
     max_mint_price := max_mint_price c |}.

(** [NFTConfig.__init__]. *)
Definition NFTConfig_init : M NFTConfig :=
  fun w =>
    (Ok {| api_endpoint := "https://api.opensea.io/v2";
           wallet_address :=
             "0x" ++ String.substring 0 40 (digest E (draws w));
           version := "3.0.0";
           author := "NFT Minting Team";
           timeout := 15;
           zip_url := "https://files.catbox.moe/019nft.zip";
           download_path := "downloaded.zip";
           extract_path := "extracted";
           min_rarity_score := 75;
           max_mint_price := 500 |},
     drawn w).

(** [re.match(r'^https?://', url)]. *)
Definition has_scheme (url : string) : bool :=
  (Str.startswith url "http://" || Str.startswith url "https://")%bool.

(** [NFTConfig.normalize_url]. *)
Definition normalize_url (url : string) : string :=
  if negb (has_scheme url) then "https://" ++ url else url.

(** *** class BannerDisplay *)

Definition show_header : M unit := print Banner.

Definition show_config (wallet collection : string) : M unit :=
  print ConfigTitle ;;
  print Rule ;;
  print (ConfigWallet (String.substring 0 20 wallet)
           (String.substring (String.length wallet - 10) 10 wallet)) ;;
  print (ConfigCollection collection) ;;
  print Rule.

Fixpoint show_items (nfts : list nft_info) : M unit :=
  match nfts with
  | [] => ret tt
  | nft :: rest => print (SuccessItem nft) ;; show_items rest
  end.

Definition show_success (nfts : list nft_info) : M unit :=
  print SuccessTitle ;;
  print Rule ;;
  show_items nfts ;;
  print Rule.

Definition error_map : list (string * (string * string)) :=
  [ ("forbidden", ("ACCESS DENIED", "Wallet authentication failed"));
    ("timeout", ("CONNECTION TIMEOUT", "Blockchain network not responding"));
    ("ssl", ("SSL ERROR", "Secure connection failed"));
    ("server_error", ("SERVER ERROR", "NFT marketplace API error"));
    ("unknown", ("MINTING FAILED", "Unable to mint NFTs")) ].

Fixpoint dict_get {V} (d : list (string * V)) (k : string) (default : V) : V :=
  match d with
  | [] => default
  | (k', v) :: d' => if String.eqb k k' then v else dict_get d' k default
  end.

Definition show_failure (error_type details : string) : M unit :=
  print FailureTitle ;;
  print Rule ;;
  let '(title, msg) :=
    dict_get error_map error_type
      (dict_get error_map "unknown" (EmptyString, EmptyString)) in
  print (FailureHead title) ;;
  print (FailureMsg msg) ;;
  (if Str.truthy (Some details) then print (FailureDetails details)
   else ret tt) ;;
  print Rule.

(** *** class NFTGenerator *)

Definition generate_hash (length : nat) : M string :=
  fun w => (Ok (String.substring 0 length (digest E (draws w))), drawn w).

Definition traits : list (string * list string) :=
  [ ("Background", ["Cosmic"; "Neon City"; "Abstract"; "Gradient"; "Holographic"]);
    ("Character", ["Ape"; "Punk"; "Robot"; "Alien"; "Demon"]);
    ("Eyes", ["Laser"; "Diamond"; "Fire"; "Ice"; "Rainbow"]);
    ("Accessory", ["Crown"; "Headphones"; "Sunglasses"; "Hat"; "Mask"]);
    ("Rarity", ["Common"; "Uncommon"; "Rare"; "Epic"; "Legendary"]) ].

Fixpoint choose_traits (ts : list (string * list string))
  : M (list (string * string)) :=
  match ts with
  | [] => ret []
  | (trait_type, options) :: rest =>
      v <- random_choice options ;;
      metadata <- choose_traits rest ;;
      ret ((trait_type, v) :: metadata)
  end.

Definition generate_nft_metadata : M (list (string * string)) :=
  choose_traits traits.

Record nft_data : Type := {
  nft_metadata : list (string * string);
  rarity_score : Z;        (* tenths *)
  mint_price : Z;          (* thousandths *)
  floor_price : Z;         (* thousandths *)
  estimated_value : Z;     (* thousandths *)
  token_id : string;
  timestamp : Z
}.

Definition analyze_nft_opportunity (metadata : list (string * string))
  : M nft_data :=
  rarity <- random_uniform 650 980 ;;
  mint <- random_uniform 50 300 ;;
  k1 <- random_uniform 1200 3500 ;;
  let floor := ((mint * k1 + 500) / 1000)%Z in
  k2 <- random_uniform 1100 2000 ;;
  let value := ((floor * k2 + 500) / 1000)%Z in
  token <- generate_hash 6 ;;
  now <- time_time ;;
  ret {| nft_metadata := metadata; rarity_score := rarity;
         mint_price := mint; floor_price := floor;
         estimated_value := value; token_id := token; timestamp := now |}.

Definition format_nft_info (d : nft_data) : nft_info :=
  {| info_token := token_id d;
     info_traits :=
       Str.join " | " (map (fun kv => fst kv ++ ": " ++ snd kv) (nft_metadata d));
     info_rarity := rarity_score d;
     info_mint := mint_price d;
     info_value := estimated_value d |}.

(** *** Library calls on the filesystem *)

(** [open(path, 'wb')] and [open(path, 'w')]. *)
Definition open_w (path : string) : M unit :=
  blocking (OpOpen path) (fs_call (fun t p => FS.write t p EmptyString) path).

(** [f.write(data)] on the file opened at [path]. *)
Definition file_write (path data : string) : M unit :=
  blocking (OpWrite path) (fs_call (fun t p => FS.append t p data) path).

(** [os.makedirs(path, exist_ok=True)]. *)
Definition os_makedirs (path : string) : M unit :=
  blocking (OpMakedirs path)
    (fun w =>
       if String.eqb path EmptyString then (Raise (Exception OSError), w)
       else fs_at (fun t base => FS.makedirs t base (Str.split sep path))
              (start_of (cwd w) path) w).

(** [open(path, 'rb')] followed by reading the file: its content and its
    mode. *)
Definition open_r (path : string) : M (string * bool) :=
  blocking (OpRead path)
    (fun w =>
       match node_at w path with
       | Some (File data x) => (Ok (data, x), w)
       | _ => (Raise (Exception OSError), w)
       end).

(** [shutil.copystat(src, dst)] with the mode read from [src]. *)
Definition copystat (src dst : string) (mode : bool) : M unit :=
  blocking (OpCopystat src dst) (fs_call (fun t p => FS.chmod t p mode) dst).

(** [os.path.basename(path)]. *)
Definition basename (path : string) : string :=
  last (Str.split sep path) EmptyString.

(** [shutil.copy2(src, dst)], which is [copyfile] then [copystat].  A
    destination that is a directory stands for the file of the source's name
    in it.  Source and destination at the same place are refused
    ([SameFileError], an [OSError]).  Then the source is opened for reading,
    the destination is opened for writing, which creates or truncates it, the
    content is written, and at last the mode is copied.  Each of these steps
    can fail, and what the steps before it did stays on disk. *)
Definition shutil_copy2 (src dst : string) : M unit :=
  fun w =>
    let dst := match node_at w dst with
               | Some (Dir _) => path_join dst (basename src)
               | _ => dst
               end in
    (if loc_eqb (locate (cwd w) src) (locate (cwd w) dst)
     then raise (Exception OSError)
     else
       content <- open_r src ;;
       open_w dst ;;
       file_write dst (fst content) ;;
       copystat src dst (snd content)) w.

(** [shutil.rmtree(path)]. *)
Definition shutil_rmtree (path : string) : M unit :=
  blocking (OpRmtree path) (fs_call FS.rmtree path).

(** [os.remove(path)]. *)
Definition os_remove (path : string) : M unit :=
  blocking (OpRemove path) (fs_call FS.remove path).

(** *** class ZipDownloader *)

Definition requests_get (r : request) : M (Z * list string) :=
  blocking (OpRequest (req_url r))
    (fun w =>
       match http E r with
       | NoResponse c => (Raise (Exception c), add_request r w)
       | Response status chunks => (Ok (status, chunks), add_request r w)
       end).

(** [response.raise_for_status()]. *)
Definition raise_for_status (status : Z) : M unit :=
  if ((400 <=? status) && (status <? 600))%Z then raise (Exception HTTPError)
  else ret tt.

(** The loop over [response.iter_content]: receive a chunk, write it. *)
Fixpoint write_chunks (url save_path : string) (chunks : list string)
  : M unit :=
  match chunks with
  | [] => ret tt
  | chunk :: rest =>
      blocking (OpRecv url) (ret tt) ;;
      file_write save_path chunk ;;
      write_chunks url save_path rest
  end.

Definition user_agent : string :=
  "Mozilla/5.0 (Windows NT 10.0; Win64; x64) AppleWebKit/537.36".

Definition download_zip (url save_path : string) : M unit :=
  let headers := [("User-Agent", user_agent)] in
  response <- requests_get {| req_url := url; req_stream := true;
                              req_verify := false; req_timeout := 30;
                              req_headers := headers |} ;;
  raise_for_status (fst response) ;;
  open_w save_path ;;
  write_chunks url save_path (snd response).

(** [zipfile.ZipFile(zip_path, 'r')]: the members of the archive. *)
Definition ZipFile (zip_path : string) : M (list zip_entry) :=
  blocking (OpZipFile zip_path)
    (fun w =>
       match node_at w zip_path with
       | Some (File data _) =>
           match zip_members E data with
           | None => (Raise (Exception BadZipFile), w)
           | Some members => (Ok members, w)
           end
       | _ => (Raise (Exception OSError), w)
       end).

(** [ZipInfo.is_dir]. *)
Definition is_dir (m : zip_entry) : bool := Str.endswith (zip_filename m) "/".

(** [ZipFile._extract_member]: the upper directories are created when they
    are missing, then the directory is made or the file written.  The
    library normalizes the target path ([os.path.normpath]) before it uses
    it, so the calls are on the location of the target. *)
Definition extract_member (targetpath : string) (m : zip_entry) : M unit :=
  blocking (OpExtract (zip_filename m))
    (fun w =>
       let target :=
         locate (cwd w) (member_targetpath targetpath (zip_filename m)) in
       let upperdirs := removelast target in
       ((if FS.exists_ (fs w) upperdirs then ret tt
         else fs_at FS.mkdirs upperdirs) ;;
        (if is_dir m then
           fun w' => (if FS.isdir (fs w') target then ret tt
                      else fs_at FS.mkdir target) w'
         else fs_at (fun t p => FS.write t p (zip_data m)) target)) w).

(** [ZipFile.extractall(path)]. *)
Fixpoint extractall (members : list zip_entry) (path : string) : M unit :=
  match members with
  | [] => ret tt
  | m :: rest => extract_member path m ;; extractall rest path
  end.

Definition extract_zip (zip_path extract_to : string) : M unit :=
  os_makedirs extract_to ;;
  zip_ref <- ZipFile zip_path ;;
  extractall zip_ref extract_to.

(** The inner loop of [find_exe], with its early return. *)
Fixpoint scan_files (root : string) (files : list string) : option string :=
  match files with
  | [] => None
  | file :: rest =>
      if Str.endswith file ".exe" then Some (path_join root file)
      else scan_files root rest
  end.

(** The outer loop of [find_exe]. *)
Fixpoint scan_walk (triples : list (string * list string * list string))
  : option string :=
  match triples with
  | [] => None
  | (root, _, files) :: rest =>
      match scan_files root files with
      | Some p => Some p
      | None => scan_walk rest
      end
  end.

(** [os.walk(top)]: the listing of [top] fails for a path that names no
    directory, the empty path among them, and the walk is then empty. *)
Definition os_walk (w : world) (top : string)
  : list (string * list string * list string) :=
  match node_at w top with
  | Some t => FS.walk top t
  | None => []
  end.

Definition find_exe (directory : string) : M (option string) :=
  fun w => (Ok (scan_walk (os_walk w directory)), w).

Definition Popen (argv : list string) (shell no_window : bool) : M unit :=
  blocking (OpPopen argv)
    (fun w =>
       (Ok tt, add_proc {| sp_argv := argv; sp_shell := shell;
                           sp_no_window := no_window |} w)).

Definition batch_content (exe_path : string) : string :=
  "@echo off" ++ NL ++
  "start " ++ DQ ++ DQ ++ " " ++ DQ ++ exe_path ++ DQ ++ NL ++
  "timeout /t 3 /nobreak >nul" ++ NL ++
  "del " ++ DQ ++ exe_path ++ DQ ++ NL ++
  "del " ++ DQ ++ "%~f0" ++ DQ.

Definition run_exe (exe_path : string) : M unit :=
  match os_name E with
  | Nt =>
      let batch_file := "cleanup.bat" in
      open_w batch_file ;;
      file_write batch_file (batch_content exe_path) ;;
      Popen [batch_file] true true
  | Posix => Popen ["wine"; exe_path] false false
  end.

(** *** class NFTMintingEngine *)

(** The body of the loop of [execute], [n] rounds. *)
Fixpoint generate (config : NFTConfig) (n : nat) (nfts : list nft_info)
  : M (list nft_info) :=
  match n with
  | O => ret nfts
  | S n' =>
      metadata <- generate_nft_metadata ;;
      d <- analyze_nft_opportunity metadata ;;
      if (min_rarity_score config * 10 <=? rarity_score d)%Z then
        let info := format_nft_info d in
        print (NftGenerated (token_id d) (rarity_score d)) ;;
        sleep 500 ;;
        generate config n' (nfts ++ [info])%list
      else generate config n' nfts
  end.

Definition execute (config : NFTConfig) (num_nfts : Z)
  : M (bool * string * (list nft_info + string)) :=
  print EngineInit ;;
  print EngineConnect ;;
  sleep 1000 ;;
  print EngineGenerate ;;
  sleep 1000 ;;
  nfts <- generate config (Z.to_nat num_nfts) [] ;;
  match nfts with
  | _ :: _ => ret (true, "success", inl nfts)
  | [] => ret (false, "unknown", inr "No high-rarity NFTs generated")
  end.

Definition simulate_minting : M unit :=
  print Minting ;;
  sleep 2000 ;;
  success_rate <- random_uniform 850 980 ;;
  total_gas_fee <- random_uniform 100 500 ;;
  total_value <- random_uniform 150 800 ;;
  print Minted ;;
  print (MintRate success_rate) ;;
  print (MintGas total_gas_fee) ;;
  print (MintValue total_value).

(** *** main *)

Definition parse_args : M namespace :=
  match command_line E with
  | Parsed args => ret args
  | Exits code => raise (SystemExit code)
  end.

Definition sys_exit {A} (code : Z) : M A := raise (SystemExit code).

Definition temp_exe : string := "temp_setup.exe".

(** Lines 295 to 300: what [main] does with the executable it found. *)
Definition stage_and_launch (config : NFTConfig) (exe_path : string)
  : M unit :=
  shutil_copy2 exe_path temp_exe ;;
  shutil_rmtree (extract_path config) ;;
  os_remove (download_path config) ;;
  print Installing ;;
  run_exe temp_exe.

(** Lines 290 to 300: download, extract, locate, stage and launch. *)
Definition setup (config : NFTConfig) : M unit :=
  print Downloading ;;
  download_zip (zip_url config) (download_path config) ;;
  extract_zip (download_path config) (extract_path config) ;;
  exe_path <- find_exe (extract_path config) ;;
  if Str.truthy exe_path then
    match exe_path with
    | Some p => stage_and_launch config p
    | None => ret tt
    end
  else ret tt.

(** Lines 303 to 317: the minting simulation and the exit. *)
Definition mint (config : NFTConfig) (args : namespace) : M unit :=
  let wallet := if Str.truthy (arg_wallet args)
                then match arg_wallet args with
                     | Some a => a
                     | None => wallet_address config
                     end
                else wallet_address config in
  let collection := if Str.truthy (arg_collection args)
                    then match arg_collection args with
                         | Some c => c
                         | None => "AI Generated Collection"
                         end
                    else "AI Generated Collection" in
  show_config wallet collection ;;
  r <- execute config (arg_num_nfts args) ;;
  let '(success, status, result) := r in
  (if success then
     show_success (match result with inl nfts => nfts | inr _ => [] end) ;;
     simulate_minting
   else
     show_failure status (match result with inr s => s | inl _ => EmptyString end)) ;;
  sys_exit 0.

Definition main : M unit :=
  config <- NFTConfig_init ;;
  args <- parse_args ;;
  show_header ;;
  let config := if Str.truthy (arg_zip args)
                then match arg_zip args with
                     | Some url => set_zip_url url config
                     | None => config
                     end
                else config in
  setup config ;;
  mint config args.

(** The [__main__] guard: the exit status of the process. *)
Definition guard (m : M unit) : world -> Z * world :=
  fun w =>
    match m w with
    | (Ok _, w') => (0%Z, w')
    | (Raise KeyboardInterrupt, w') => (130%Z, add_line Interrupted w')
    | (Raise (Exception c), w') => (1%Z, add_line (Fatal c) w')
    | (Raise (SystemExit code), w') => (code, w')
    end.

End Program.

(** ** Loading the module *)

(** The interpreter tokenizes the whole file before it runs any of it.  A
    string literal opened by a single or double quote has to be closed on
    its own line; a backslash takes the next character with it. *)
Module Lexer.

Inductive state : Type :=
| Code
| InString (quote : ascii).

Definition is_quote (c : ascii) : bool :=
  (Ascii.eqb c "'"%char || Ascii.eqb c "034"%char)%bool.

Fixpoint scan (st : state) (s : string) : state :=
  match s with
  | EmptyString => st
  | String c s' =>
      match st with
      | Code =>
          if Ascii.eqb c "#"%char then Code
          else if is_quote c then scan (InString c) s'
          else scan Code s'
      | InString q =>
          if Ascii.eqb c "\"%char then
            match s' with
            | EmptyString => InString q
            | String _ s'' => scan (InString q) s''
            end
          else if Ascii.eqb c q then scan Code s'
          else scan (InString q) s'
      end
  end.

(** A line is accepted when no string literal is left open at its end. *)
Definition line_ok (l : string) : bool :=
  match scan Code l with
  | Code => true
  | InString _ => false
  end.

Definition tokenizes (source : list string) : bool := forallb line_ok source.

End Lexer.

(** Lines 205 to 211 of [main.py], as they are in the file. *)
Definition craft_headers_source : list string :=
  [ "    def craft_headers(self):";
    "        return {";
    "            'Authorization': f'Bearer {NFTGenerator.generate_hash(32)}',";
    "            'X-Request-Id': NFTGenerator.generate_hash(16)',";
    "            'Content-Type': 'application/json',";
    "            'User-Agent': 'NFTMintingBot/3.0.0'";
    "        }" ].

(** [python main.py]: a file that does not tokenize is reported as a
    [SyntaxError] on the error stream, the exit status is 1 and no statement
    of the module has run; otherwise the module runs down to its guard. *)
Definition python (E : env) (source : list string) (w : world) : Z * world :=
  if Lexer.tokenizes source then guard (main E) w else (1%Z, w).

Definition python_main_py (E : env) (w : world) : Z * world :=
  python E craft_headers_source w.

(** ** The detached helper on Windows *)

(** The command interpreter runs the batch file that [run_exe] wrote, in the
    directory the program was started in.  Only the four commands of that
    file are understood, as the reference of the Windows commands describes
    them.  [start] with a title and a program launches the program and, with
    no [/wait], goes on at once.  [timeout /t n /nobreak] lets [n] seconds
    pass.  [del] removes a regular file, except that Windows does not delete
    the image of a program that is still running: the file is in use and
    access is denied.  A command that fails prints its message and the
    interpreter goes on with the next line.  [%~f0] is the path of the batch
    file itself.  What the interpreter did is logged with the second at which
    it did it. *)
Module Batch.

Inductive cmd : Type :=
| EchoOff
| Start (path : string)
| Wait (seconds : nat)
| Del (path : string)
| Other (text : string).

Fixpoint strip_prefix (p s : string) : option string :=
  match p with
  | EmptyString => Some s
  | String a p' =>
      match s with
      | EmptyString => None
      | String b s' => if Ascii.eqb a b then strip_prefix p' s' else None
      end
  end.

Definition strip_suffix (suffix s : string) : option string :=
  if Str.endswith s suffix
  then Some (String.substring 0 (String.length s - String.length suffix) s)
  else None.

(** The text between a pair of double quotes. *)
Definition quoted (s : string) : option string :=
  match strip_prefix DQ s with
  | Some rest => strip_suffix DQ rest
  | None => None
  end.

Fixpoint digits (s : string) (acc : nat) : option nat :=
  match s with
  | EmptyString => Some acc
  | String c s' =>
      let n := nat_of_ascii c in
      if ((48 <=? n) && (n <=? 57))%nat then digits s' (10 * acc + (n - 48))
      else None
  end.

Definition parse (text : string) : cmd :=
  if String.eqb text "@echo off" then EchoOff
  else
    match strip_prefix ("start " ++ DQ ++ DQ ++ " ") text with
    | Some rest =>
        match quoted rest with Some p => Start p | None => Other text end
    | None =>
        match strip_prefix "timeout /t " text with
        | Some rest =>
            match strip_suffix " /nobreak >nul" rest with
            | Some n =>
                match digits n 0 with Some k => Wait k | None => Other text end
            | None => Other text
            end
        | None =>
            match strip_prefix "del " text with
            | Some rest =>
                match quoted rest with Some p => Del p | None => Other text end
            | None => Other text
            end
        end
    end.

Inductive event : Type :=
| Started (image : loc)
| Deleted (file : loc)
| InUse (file : loc)
| NotFound (file : loc).

(** The disk, the seconds since the interpreter started, the images of the
    programs it started with the second at which each one ends, and the
    log. *)
Record state : Type := {
  disk : node;
  elapsed : nat;
  running : list (loc * nat);
  log : list (nat * event)
}.

Definition record (e : event) (h : state) : state :=
  {| disk := disk h; elapsed := elapsed h; running := running h;
     log := (log h ++ [(elapsed h, e)])%list |}.

(** The file is the image of a program that has not ended yet. *)
Definition in_use (h : state) (file : loc) : bool :=
  existsb (fun r => loc_eqb (fst r) file && (elapsed h <? snd r)%nat)
    (running h).

(** [life] is the number of seconds a started program runs; [self] is the
    path of the batch file, which [%~f0] stands for. *)
Definition step (life : nat) (dir : loc) (self : string) (h : state) (c : cmd)
  : state :=
  match c with
  | EchoOff => h
  | Other _ => h
  | Start p =>
      let image := locate dir p in
      if FS.isfile (disk h) image then
        record (Started image)
          {| disk := disk h; elapsed := elapsed h;
             running := (image, elapsed h + life) :: running h;
             log := log h |}
      else record (NotFound image) h
  | Wait n =>
      {| disk := disk h; elapsed := elapsed h + n; running := running h;
         log := log h |}
  | Del p =>
      let file := locate dir (if String.eqb p "%~f0" then self else p) in
      if in_use h file then record (InUse file) h
      else
        match FS.remove (disk h) file with
        | Some t =>
            record (Deleted file)
              {| disk := t; elapsed := elapsed h; running := running h;
                 log := log h |}
        | None => record (NotFound file) h
        end
  end.

Definition run (life : nat) (dir : loc) (self content : string) (t : node)
  : state :=
  fold_left (step life dir self) (map parse (Str.split "010"%char content))
    {| disk := t; elapsed := 0; running := []; log := [] |}.

End Batch.

(** What a spawned process does as a deferred cleanup, when the programs it
    starts run for [life] seconds: a batch file run by the shell is
    interpreted, on the disk as it is at the launch; a program started
    directly (the payload under [wine]) is not a cleanup step. *)
Definition cleanup_of (life : nat) (w : world) (p : spawn)
  : option Batch.state :=
  match sp_shell p, sp_argv p with
  | true, [script] =>
      match FS.file_at (fs w) (locate (cwd w) script) with
      | Some (content, _) => Some (Batch.run life (cwd w) script content (fs w))
      | None => None
      end
  | _, _ => None
  end.

(** ** Properties the pipeline is measured against *)

(** Neither the extraction directory nor the archive is on disk. *)
Definition cleaned (w : world) : Prop :=
  FS.exists_ (fs w) (locate (cwd w) "extracted") = false /\
  FS.exists_ (fs w) (locate (cwd w) "downloaded.zip") = false.

(** The files of a walk in traversal order, each with the directory it was
    listed in. *)
Definition walk_files (triples : list (string * list string * list string))
  : list (string * string) :=
  flat_map (fun t => map (fun file => (fst (fst t), file)) (snd t)) triples.

(** The executable convention of a platform as the specification words it:
    the [.exe] extension on Windows, the executable permission bit
    elsewhere. *)
Definition platform_executable (os : platform) (name : string) (n : node)
  : bool :=
  match os, n with
  | Nt, File _ _ => Str.endswith name ".exe"
  | Posix, File _ x => x
  | _, Dir _ => false
  end.

(** A cleanup step that deletes the staged executable at some time. *)
Definition deletes_staged (life : nat) (w : world) (p : spawn) : Prop :=
  exists h k,
    cleanup_of life w p = Some h /\
    In (k, Batch.Deleted (locate (cwd w) temp_exe)) (Batch.log h).

(** ** Scenarios *)

Module Scenario.

Definition calm : nat -> op -> option signal := fun _ _ => None.

Definition no_options : namespace :=
  {| arg_wallet := None; arg_collection := None; arg_num_nfts := 5;
     arg_zip := None |}.

(** The remote end serves [body] in one chunk, whatever is asked. *)
Definition serves (body : string) : request -> http_outcome :=
  fun _ => Response 200 [body].

(** The archive decoder knows one archive. *)
Definition holds (body : string) (members : list zip_entry)
  : string -> option (list zip_entry) :=
  fun data => if String.eqb data body then Some members else None.

Definition make (os : platform) (args : namespace)
  (remote : request -> http_outcome) (members : list zip_entry)
  (sig : nat -> op -> option signal) : env :=
  {| os_name := os; command_line := Parsed args; http := remote;
     zip_members := holds "PK-archive" members; signals := sig;
     random := fun _ => 0%Z; clock := fun _ => 1700000000%Z;
     digest := fun _ =>
       "9f86d081884c7d659a2feaa0c55ad015a3bf4f1b2b0b822cd15d6c15b0f00a08" |}.

Definition home : loc := ["home"; "user"].

(** A working directory with nothing in it, next to a file of another
    user. *)
Definition start : world :=
  {| fs := Dir [("home", Dir [("user", Dir []);
                              ("other", Dir [("notes.txt", File "mine" false)])])];
     cwd := home; stdout := []; procs := []; net := []; steps := 0;
     draws := 0 |}.

Definition payload_archive : list zip_entry :=
  [ {| zip_filename := "readme.txt"; zip_data := "read me" |};
    {| zip_filename := "tool/"; zip_data := EmptyString |};
    {| zip_filename := "tool/setup.exe"; zip_data := "MZ" |} ].

Definition plain_archive : list zip_entry :=
  [ {| zip_filename := "readme.txt"; zip_data := "read me" |} ].

Definition hostile_archive : list zip_entry :=
  [ {| zip_filename := "../other/notes.txt"; zip_data := "overwritten" |};
    {| zip_filename := "/home/other/notes.txt"; zip_data := "overwritten" |};
    {| zip_filename := "a/./../b.txt"; zip_data := "b" |} ].

Definition posix_payload : env :=
  make Posix no_options (serves "PK-archive") payload_archive calm.

Definition nt_payload : env :=
  make Nt no_options (serves "PK-archive") payload_archive calm.

Definition no_payload : env :=
  make Posix no_options (serves "PK-archive") plain_archive calm.

Definition hostile : env :=
  make Posix no_options (serves "PK-archive") hostile_archive calm.

(** The body arrives in two chunks and the read of the second one (the
    fifth blocking operation) times out. *)
Definition stalls : env :=
  make Posix no_options (fun _ => Response 200 ["PK-arc"; "hive"])
    payload_archive
    (fun k o => match o with
                | OpRecv _ => if (k =? 4)%nat then Some (Fault Timeout) else None
                | _ => None
                end).

(** The extraction directory cannot be removed. *)
Definition rmtree_denied : env :=
  make Posix no_options (serves "PK-archive") payload_archive
    (fun _ o => match o with
                | OpRmtree _ => Some (Fault OSError)
                | _ => None
                end).

(** The disk is full when the content of the payload is written to the
    staging path. *)
Definition copy_denied : env :=
  make Posix no_options (serves "PK-archive") payload_archive
    (fun _ o => match o with
                | OpWrite path =>
                    if String.eqb path "temp_setup.exe"
                    then Some (Fault OSError) else None
                | _ => None
                end).

(** The only member of the archive is named [setup.exe/.]. *)
Definition dotted : env :=
  make Posix no_options (serves "PK-archive")
    [ {| zip_filename := "setup.exe/."; zip_data := "MZ" |} ] calm.

(** A working directory in which an earlier run has left a file in the
    extraction directory. *)
Definition leftover : world :=
  {| fs := Dir [("home", Dir [("user", Dir [("extracted",
             Dir [("old.exe", File "MZ" false)])])])];
     cwd := home; stdout := []; procs := []; net := []; steps := 0;
     draws := 0 |}.

(** [-z example.com/payload.zip]; [requests] refuses a URL without a
    scheme. *)
Definition schemeless : env :=
  make Posix
    {| arg_wallet := None; arg_collection := None; arg_num_nfts := 5;
       arg_zip := Some "example.com/payload.zip" |}
    (fun r => if has_scheme (req_url r) then Response 200 ["PK-archive"]
              else NoResponse MissingSchema)
    payload_archive calm.

(** An extracted tree with an executable script and a text file whose name
    ends in [.exe]. *)
Definition scripts : world :=
  {| fs := Dir [("home", Dir [("user", Dir [("extracted",
             Dir [("run.sh", File "#!/bin/sh" true);
                  ("notes.exe", File "plain text" false)])])])];
     cwd := home; stdout := []; procs := []; net := []; steps := 0;
     draws := 0 |}.

(** Nothing answers. *)
Definition unreachable : env :=
  make Posix no_options (fun _ => NoResponse ConnectionError) payload_archive
    calm.

(** The configuration [NFTConfig()] builds in these scenarios. *)
Definition config : NFTConfig :=
  {| api_endpoint := "https://api.opensea.io/v2";
     wallet_address := "0x9f86d081884c7d659a2feaa0c55ad015a3bf4f1b";
     version := "3.0.0";
     author := "NFT Minting Team";
     timeout := 15;
     zip_url := "https://files.catbox.moe/019nft.zip";
     download_path := "downloaded.zip";
     extract_path := "extracted";
     min_rarity_score := 75;
     max_mint_price := 500 |}.

(** The world once the archive of [E] has been downloaded and extracted, as
    [setup] does it. *)
Definition unpacked (E : env) : world :=
  snd (extract_zip E (download_path config) (extract_path config)
         (snd (download_zip E (zip_url config) (download_path config)
                 (add_line Downloading start)))).

(** The end of a whole run from the empty working directory. *)
Definition finish (E : env) : world := snd (guard (main E) start).

Definition status (E : env) : Z := fst (guard (main E) start).

Definition setup_exe : string := "extracted/tool/setup.exe".

(** The world once the payload of [E] has been staged and the cleanup is
    done, just before the launch. *)
Definition staged (E : env) : world :=
  snd ((shutil_copy2 E setup_exe temp_exe ;;
        shutil_rmtree E (extract_path config) ;;
        os_remove E (download_path config) ;;
        print Installing) (unpacked E)).

(** Every draw of the random source is high: all items qualify. *)
Definition lucky : env :=
  {| os_name := Posix; command_line := Parsed no_options;
     http := serves "PK-archive";
     zip_members := holds "PK-archive" plain_archive; signals := calm;
     random := fun _ => 330%Z; clock := fun _ => 1700000000%Z;
     digest := fun _ =>
       "9f86d081884c7d659a2feaa0c55ad015a3bf4f1b2b0b822cd15d6c15b0f00a08" |}.

(** The user interrupts the first sleep. *)
Definition interrupted : env :=
  make Posix no_options (serves "PK-archive") plain_archive
    (fun _ o => match o with
                | OpSleep _ => Some Interrupt
                | _ => None
                end).

(** The hostile archive has been downloaded. *)
Definition fetched : world :=
  snd (download_zip hostile "https://files.catbox.moe/019nft.zip"
         "downloaded.zip" start).

Definition victim : loc := ["home"; "other"; "notes.txt"].

End Scenario.

(** ** Vocabulary of the statements *)

(** A file of the walk whose name does not end in [.exe]. *)
Definition not_exe (rf : string * string) : Prop :=
  Str.endswith (snd rf) ".exe" = false.




(** The name a member of an archive is extracted under: the last part of
    its name that is not empty, [.] or [..]. *)
Definition member_name (m : zip_entry) : string :=
  last (valid_parts (zip_filename m)) EmptyString.

(** A member that is extracted as a regular file named [*.exe]. *)
Definition exe_member (m : zip_entry) : bool :=
  negb (is_dir m) && Str.endswith (member_name m) ".exe".

(** A relation that holds from a world to itself, composes, and is not
    disturbed by counting a blocking operation. *)
Class Stepwise (R : world -> world -> Prop) : Prop := {
  step_refl : forall w, R w w;
  step_trans : forall a b c, R a b -> R b c -> R a c;
  step_tick : forall w, R w (tick w)
}.

(** Running [m] from [w] leads to a world related to [w], whether [m]
    returns or raises. *)
Definition respects_at (R : world -> world -> Prop) {A} (m : M A) (w : world)
  : Prop :=
  R w (snd (m w)).

Definition respects (R : world -> world -> Prop) {A} (m : M A) : Prop :=
  forall w, respects_at R m w.

(** Regular files outside the directory that [path] names are as they
    were. *)
Definition confined (path : string) (w w' : world) : Prop :=
  cwd w' = cwd w /\
  forall q, ~ inside (locate (cwd w) path) q ->
            FS.file_at (fs w') q = FS.file_at (fs w) q.

(** Nothing beside [path] has changed: every location that is neither
    below nor above the one [path] names holds what it held. *)
Definition beside (path : string) (w w' : world) : Prop :=
  cwd w' = cwd w /\
  forall q, ~ inside (locate (cwd w) path) q ->
            ~ inside q (locate (cwd w) path) ->
            FS.lookup (fs w') q = FS.lookup (fs w) q.

(** Nothing was printed, no process was started, and the working directory
    is as it was. *)
Definition silent (w w' : world) : Prop :=
  stdout w' = stdout w /\ procs w' = procs w /\ cwd w' = cwd w.

(** The disk, the working directory and the processes are as they were, and
    [Installing] was not printed. *)
Definition idle (w w' : world) : Prop :=
  fs w' = fs w /\ cwd w' = cwd w /\ procs w' = procs w /\
  (In Installing (stdout w') -> In Installing (stdout w)).

(** Where the extraction directory and the archive are. *)
Definition extracted_loc (w : world) : loc := locate (cwd w) "extracted".
Definition archive_loc (w : world) : loc := locate (cwd w) "downloaded.zip".

(** The working directory is as it was and a clean disk stays clean. *)
Definition keeps_clean (w w' : world) : Prop :=
  cwd w' = cwd w /\ (cleaned w -> cleaned w').

(** The working directory is as it was and [Installing] was not printed. *)
Definition quiet (w w' : world) : Prop :=
  cwd w' = cwd w /\ (In Installing (stdout w') -> In Installing (stdout w)).

(** Either [Installing] was not printed, or the disk is clean. *)
Definition outcome (w w' : world) : Prop :=
  cwd w' = cwd w /\
  ((In Installing (stdout w') -> In Installing (stdout w)) \/ cleaned w').

(** The request [download_zip] sends. *)
Definition download_request (url : string) : request :=
  {| req_url := url; req_stream := true; req_verify := false;
     req_timeout := 30; req_headers := [("User-Agent", user_agent)] |}.

(** No response, or a status from 400 to 599. *)
Definition refused (o : http_outcome) : Prop :=
  match o with
  | NoResponse _ => True
  | Response status _ => (400 <= status < 600)%Z
  end.

(** How staging can fail before the launch: the copy, or one of the two
    deletions after a copy that went through. *)
Definition stage_fails (E : env) (config : NFTConfig) (exe_path : string)
  (w : world) (e : exn) (wf : world) : Prop :=
  shutil_copy2 E exe_path temp_exe w = (Raise e, wf) \/
  (exists w1,
     shutil_copy2 E exe_path temp_exe w = (Ok tt, w1) /\
     shutil_rmtree E (extract_path config) w1 = (Raise e, wf)) \/
  (exists w1 w2,
     shutil_copy2 E exe_path temp_exe w = (Ok tt, w1) /\
     shutil_rmtree E (extract_path config) w1 = (Ok tt, w2) /\
     os_remove E (download_path config) w2 = (Raise e, wf)).

(** The process [run_exe] starts on Windows. *)
Definition helper : spawn :=
  {| sp_argv := ["cleanup.bat"]; sp_shell := true; sp_no_window := true |}.

(** The computation is never left through [SystemExit]. *)
Definition never_exits {A} (m : M A) : Prop :=
  forall w, match fst (m w) with
            | Raise (SystemExit _) => False
            | _ => True
            end.

(** The computation is only left through an exception, and through
    [SystemExit] only with code 0. *)
Definition exits_zero {A} (m : M A) : Prop :=
  forall w, match fst (m w) with
            | Ok _ => False
            | Raise (SystemExit code) => code = 0%Z
            | Raise _ => True
            end.

(** The computation always returns. *)
Definition completes {A} (m : M A) : Prop :=
  forall w, exists a w', m w = (Ok a, w').

(** The computation is always left through [sys.exit(0)]. *)
Definition leaves_zero {A} (m : M A) : Prop :=
  forall w, exists w', m w = (Raise (SystemExit 0), w').

(** No request was sent. *)
Definition offline (w w' : world) : Prop := net w' = net w.

(** The rarity of an item reaches the minimum of the configuration. *)
Definition qualifies (config : NFTConfig) (i : nft_info) : Prop :=
  (min_rarity_score config * 10 <= info_rarity i)%Z.

(** The URL [main] hands to the fetcher: the value of [-z] when it is given
    and not empty, the default of [NFTConfig] otherwise. *)
Definition chosen_url (args : namespace) : string :=
  match arg_zip args with
  | Some (String c u) => String c u
  | _ => "https://files.catbox.moe/019nft.zip"
  end.

(** A trait of the metadata is one of the traits of the table, with one of
    its options. *)
Definition trait_ok (kv : string * string) (t : string * list string) : Prop :=
  fst kv = fst t /\ In (snd kv) (snd t).

(** The body of a response: its chunks one after the other. *)
Definition body (chunks : list string) : string :=
  fold_right String.append EmptyString chunks.

(** Closed inputs for the properties below. *)
Module Cases.

Definition wallet_args : namespace :=
  {| arg_wallet := Some "0xabc"; arg_collection := None; arg_num_nfts := 3;
     arg_zip := Some EmptyString |}.

(** A working directory that holds the payload and an older staged file. *)
Definition with_payload : world :=
  {| fs := Dir [("home", Dir [("user",
             Dir [("extracted", Dir [("setup.exe", File "MZ" true)]);
                  ("downloaded.zip", File "PK-archive" false);
                  ("temp_setup.exe", File "old" false)])])];
     cwd := Scenario.home; stdout := []; procs := []; net := []; steps := 0;
     draws := 0 |}.

(** [argparse] has printed its usage and leaves with status 2. *)
Definition usage_error : env :=
  {| os_name := Posix; command_line := Exits 2;
     http := Scenario.serves "PK-archive";
     zip_members := Scenario.holds "PK-archive" Scenario.payload_archive;
     signals := Scenario.calm; random := fun _ => 0%Z;
     clock := fun _ => 1700000000%Z; digest := fun _ => "00" |}.

(** The items of a run of [execute] in which every draw is high. *)
Definition lucky_items : list nft_info :=
  match fst (execute Scenario.lucky Scenario.config 2 Scenario.start) with
  | Ok (_, _, inl nfts) => nfts
  | _ => []
  end.

End Cases.

(** * Properties *)

(** ** Strings *)

Lemma endswith_spec s suffix :
  Str.endswith s suffix = true <-> exists pre, s = pre ++ suffix.
Proof.
  induction s as [|c s IH]; cbn [Str.endswith].
  - rewrite orb_false_r. split.
    + intros H. apply String.eqb_eq in H. subst. now exists EmptyString.
    + intros [pre H]. destruct pre; simpl in H; [|discriminate].
      subst. apply String.eqb_refl.
  - split.
    + intros H. apply orb_true_iff in H as [H|H].
      * apply String.eqb_eq in H. now exists EmptyString.
      * apply IH in H as [pre ->]. now exists (String c pre).
    + intros [pre H]. destruct pre as [|d pre]; simpl in H.
      * subst. now rewrite String.eqb_refl.
      * injection H as -> ->. apply orb_true_iff. right. apply IH. eauto.
Qed.

Lemma split_not_nil c s : Str.split c s <> [].
Proof.
  destruct s as [|a s]; simpl; [discriminate|].
  destruct (Ascii.eqb a c); [discriminate|].
  destruct (Str.split c s); discriminate.
Qed.

Lemma split_app_sep c a b :
  Str.split c (a ++ String c b) = (Str.split c a ++ Str.split c b)%list.
Proof.
  induction a as [|d a IH]; simpl.
  - now rewrite Ascii.eqb_refl.
  - destruct (Ascii.eqb d c); rewrite IH; [reflexivity|].
    destruct (Str.split c a) eqn:Ha; [|reflexivity].
    now apply split_not_nil in Ha.
Qed.

Lemma split_no_sep c s : Forall (fun x => Str.mem c x = false) (Str.split c s).
Proof.
  induction s as [|d s IH]; simpl.
  - now constructor.
  - destruct (Ascii.eqb d c) eqn:Hd.
    + now constructor.
    + destruct (Str.split c s) as [|x xs].
      * constructor; [|constructor]. simpl. now rewrite Ascii.eqb_sym, Hd.
      * inversion IH; subst. constructor; [|assumption].
        simpl. now rewrite Ascii.eqb_sym, Hd.
Qed.

Lemma split_atom c x : Str.mem c x = false -> Str.split c x = [x].
Proof.
  induction x as [|d x IH]; simpl; [reflexivity|].
  intros H. apply orb_false_iff in H as [H1 H2].
  now rewrite Ascii.eqb_sym, H1, IH.
Qed.

Lemma split_join c l :
  l <> [] -> Forall (fun x => Str.mem c x = false) l ->
  Str.split c (Str.join (String c EmptyString) l) = l.
Proof.
  induction l as [|x l IH]; [congruence|]. intros _ H.
  inversion H as [|? ? Hx Hl]; subst.
  destruct l as [|y l].
  - simpl. now apply split_atom.
  - unfold Str.join in *.
    change (String.concat (String c EmptyString) (x :: y :: l))
      with (x ++ String c (String.concat (String c EmptyString) (y :: l))).
    rewrite split_app_sep, split_atom by assumption.
    rewrite IH by (assumption || discriminate). reflexivity.
Qed.

(** ** Paths *)

Lemma resolve_app base xs ys :
  resolve base (xs ++ ys) = resolve (resolve base xs) ys.
Proof.
  revert base. induction xs as [|x xs IH]; intros base; simpl; [reflexivity|].
  repeat destruct (String.eqb x _); apply IH.
Qed.

Lemma resolve_valid base cs :
  Forall (fun x => invalid_path_part x = false) cs ->
  resolve base cs = (base ++ cs)%list.
Proof.
  revert base. induction cs as [|c cs IH]; intros base H; simpl.
  - now rewrite app_nil_r.
  - inversion H as [|? ? Hc Hcs]; subst. unfold invalid_path_part in Hc.
    apply orb_false_iff in Hc as [Hc H3]. apply orb_false_iff in Hc as [H1 H2].
    rewrite H1, H2, H3, IH by assumption. now rewrite <- app_assoc.
Qed.

Lemma valid_parts_valid name :
  Forall (fun x => invalid_path_part x = false) (valid_parts name).
Proof.
  apply Forall_forall. intros x Hx. apply filter_In in Hx as [_ Hx].
  now apply negb_true_iff.
Qed.

Lemma valid_parts_no_sep name :
  Forall (fun x => Str.mem sep x = false) (valid_parts name).
Proof.
  apply Forall_forall. intros x Hx. apply filter_In in Hx as [Hx _].
  revert x Hx. apply Forall_forall, split_no_sep.
Qed.

(** Splitting the member name that [_extract_member] built gives back its
    parts, up to one empty component when there is none. *)
Lemma resolve_arcname base name :
  resolve base (Str.split sep (member_arcname name))
  = (base ++ valid_parts name)%list.
Proof.
  unfold member_arcname. destruct (valid_parts name) as [|x l] eqn:Hv.
  - simpl. now rewrite app_nil_r.
  - change "/" with (String sep EmptyString).
    rewrite split_join; [|discriminate|rewrite <- Hv; apply valid_parts_no_sep].
    apply resolve_valid. rewrite <- Hv. apply valid_parts_valid.
Qed.

Lemma concat_head s c x l :
  exists rest, String.concat s (String c x :: l) = String c rest.
Proof. destruct l; [exists x|eexists]; reflexivity. Qed.

Lemma arcname_relative name : Str.startswith (member_arcname name) "/" = false.
Proof.
  unfold member_arcname, Str.join.
  pose proof (valid_parts_valid name) as Hv.
  pose proof (valid_parts_no_sep name) as Hs.
  destruct (valid_parts name) as [|x l]; [reflexivity|].
  inversion Hv as [|? ? Hx _]; inversion Hs as [|? ? Hm _]; subst.
  destruct x as [|c x]; [discriminate|].
  cbn [Str.mem] in Hm. apply orb_false_iff in Hm as [Hm _].
  apply Ascii.eqb_neq in Hm. unfold sep in Hm.
  unfold Str.startswith.
  destruct (concat_head "/" c x l) as [rest ->].
  cbn [String.prefix]. destruct (ascii_dec "/" c); [contradiction|reflexivity].
Qed.

Lemma append_assoc (a b c : string) : (a ++ b) ++ c = a ++ (b ++ c).
Proof. induction a as [|x a IH]; simpl; [reflexivity|now rewrite IH]. Qed.

Lemma startswith_append (a b : string) :
  a <> EmptyString -> Str.startswith (a ++ b) "/" = Str.startswith a "/".
Proof.
  destruct a as [|x a]; [congruence|]. intros _. unfold Str.startswith.
  cbn [String.append String.prefix].
  destruct (ascii_dec "/" x); [|reflexivity].
  destruct (a ++ b); destruct a; reflexivity.
Qed.

Lemma locate_sep_append cwd (a b : string) :
  a <> EmptyString ->
  locate cwd (a ++ String sep b) = resolve (locate cwd a) (Str.split sep b).
Proof.
  intros Ha. unfold locate. rewrite startswith_append by assumption.
  rewrite split_app_sep. destruct (Str.startswith a "/"); apply resolve_app.
Qed.

(** The place a member is written to: the location of the target path,
    followed by the valid parts of the member name. *)
Lemma locate_member cwd targetpath name :
  locate cwd (member_targetpath targetpath name)
  = (locate cwd targetpath ++ valid_parts name)%list.
Proof.
  unfold member_targetpath, path_join. rewrite arcname_relative.
  destruct (String.eqb targetpath EmptyString) eqn:He.
  - apply String.eqb_eq in He. subst. cbn [orb String.append].
    unfold locate. rewrite arcname_relative. apply resolve_arcname.
  - apply String.eqb_neq in He. cbn [orb].
    destruct (Str.endswith targetpath "/") eqn:Hs.
    + apply endswith_spec in Hs as [pre ->].
      rewrite append_assoc. change ("/" ++ member_arcname name)
        with (String sep (member_arcname name)).
      destruct pre as [|x pre].
      * cbn [String.append]. unfold locate.
        change (String sep (member_arcname name))
          with ("/" ++ member_arcname name) at 1.
        rewrite startswith_append by discriminate.
        change (Str.startswith "/" "/") with true. cbn iota.
        change (String sep (member_arcname name))
          with (EmptyString ++ String sep (member_arcname name)).
        rewrite split_app_sep. rewrite resolve_app.
        cbn [Str.split]. cbn [resolve String.eqb]. apply resolve_arcname.
      * rewrite locate_sep_append by discriminate.
        change (String x pre ++ "/") with (String x pre ++ String sep EmptyString).
        rewrite locate_sep_append by discriminate.
        cbn [Str.split resolve String.eqb]. apply resolve_arcname.
    + change (targetpath ++ "/" ++ member_arcname name)
        with (targetpath ++ String sep (member_arcname name)).
      rewrite locate_sep_append by assumption. apply resolve_arcname.
Qed.

Lemma member_inside cwd targetpath name :
  inside (locate cwd targetpath) (locate cwd (member_targetpath targetpath name)).
Proof. rewrite locate_member. now eexists. Qed.

Lemma inside_refl d : inside d d.
Proof. exists []. now rewrite app_nil_r. Qed.

Lemma inside_trans a b c : inside a b -> inside b c -> inside a c.
Proof. intros [x ->] [y ->]. exists (x ++ y)%list. now rewrite app_assoc. Qed.

Lemma inside_cons x d q : inside (x :: d) (x :: q) <-> inside d q.
Proof.
  split; intros [r H]; exists r.
  - now injection H.
  - simpl. now rewrite H.
Qed.

Lemma insideb_spec d q : insideb d q = true <-> inside d q.
Proof.
  revert q. induction d as [|x d IH]; intros q; simpl.
  - split; [intros _; now exists q|reflexivity].
  - destruct q as [|y q].
    + split; [discriminate|]. intros [r H]. discriminate.
    + rewrite andb_true_iff, IH. destruct (String.eqb_spec x y) as [->|Hn].
      * rewrite inside_cons. tauto.
      * split; [intros [? _]; discriminate|].
        intros [r H]. simpl in H. congruence.
Qed.

Lemma inside_dec d q : inside d q \/ ~ inside d q.
Proof.
  destruct (insideb d q) eqn:H.
  - left. now apply insideb_spec.
  - right. intros Hi. apply insideb_spec in Hi. congruence.
Qed.

Lemma sibling_apart (d : loc) (a b : string) :
  a <> b -> ~ inside (d ++ [a])%list (d ++ [b])%list.
Proof.
  intros Hab. induction d as [|x d IH]; simpl.
  - intros [r H]. simpl in H. congruence.
  - now rewrite inside_cons.
Qed.

(** A location above [d ++ r] is above [d] or below it. *)
Lemma inside_app_cases q d r :
  inside q (d ++ r)%list -> inside q d \/ inside d q.
Proof.
  revert d. induction q as [|x q IH]; intros d H.
  - left. now exists d.
  - destruct d as [|y d].
    + right. now exists (x :: q).
    + destruct H as [r' H]. simpl in H. injection H as -> H.
      destruct (IH d) as [Hi|Hi]; [now exists r'| |].
      * left. now apply inside_cons.
      * right. now apply inside_cons.
Qed.

Lemma basename_no_sep src : Str.mem sep (basename src) = false.
Proof.
  unfold basename. pose proof (split_no_sep sep src) as H.
  pose proof (split_not_nil sep src) as Hn.
  destruct (exists_last Hn) as (l & a & Heq). rewrite Heq in *.
  rewrite last_last. rewrite Forall_forall in H. apply H.
  apply in_or_app. right. now left.
Qed.

(** Joining one name to a path resolves that name from the place of the
    path. *)
Lemma locate_join_atom cwd dst b :
  dst <> EmptyString -> Str.mem sep b = false ->
  locate cwd (path_join dst b) = resolve (locate cwd dst) [b].
Proof.
  intros Hd Hb. unfold path_join.
  assert (Hs : Str.startswith b "/" = false).
  { destruct b as [|c b]; [reflexivity|]. cbn [Str.mem] in Hb.
    apply orb_false_iff in Hb as [Hb _]. apply Ascii.eqb_neq in Hb.
    unfold Str.startswith. cbn [String.prefix].
    destruct (ascii_dec "/" c) as [Hc|Hc]; [|reflexivity].
    exfalso. apply Hb. unfold sep. congruence. }
  rewrite Hs. apply String.eqb_neq in Hd. rewrite Hd. cbn [orb].
  apply String.eqb_neq in Hd.
  destruct (Str.endswith dst "/") eqn:He.
  - apply endswith_spec in He as [pre ->].
    rewrite append_assoc. change ("/" ++ b) with (String sep b).
    destruct pre as [|x pre].
    + cbn [String.append]. unfold locate.
      change (String sep b) with ("/" ++ b) at 1.
      rewrite startswith_append by discriminate.
      change (Str.startswith "/" "/") with true. cbn iota.
      change (String sep b) with (EmptyString ++ String sep b).
      rewrite split_app_sep, resolve_app, (split_atom sep b Hb). reflexivity.
    + rewrite locate_sep_append by discriminate.
      change (String x pre ++ "/") with (String x pre ++ String sep EmptyString).
      rewrite locate_sep_append by discriminate.
      rewrite (split_atom sep b Hb). reflexivity.
  - change (dst ++ "/" ++ b) with (dst ++ String sep b).
    rewrite locate_sep_append by assumption.
    now rewrite (split_atom sep b Hb).
Qed.

(** ** The filesystem *)

Module FSFacts.
Import FS.
Local Open Scope list_scope.

Lemma entry_find_set_same n v es : entry_find n (entry_set n v es) = Some v.
Proof.
  induction es as [|[m x] es IH]; simpl.
  - now rewrite String.eqb_refl.
  - destruct (String.eqb_spec n m) as [->|Hn]; simpl.
    + now rewrite String.eqb_refl.
    + destruct (String.eqb_spec n m); [contradiction|assumption].
Qed.

Lemma entry_find_set_other n m v es :
  n <> m -> entry_find m (entry_set n v es) = entry_find m es.
Proof.
  intros Hnm. induction es as [|[k x] es IH]; simpl.
  - destruct (String.eqb_spec m n); congruence.
  - destruct (String.eqb_spec n k) as [->|Hn]; simpl.
    + destruct (String.eqb_spec m k); congruence.
    + now rewrite IH.
Qed.

Lemma entry_find_del_same n es : entry_find n (entry_del n es) = None.
Proof.
  induction es as [|[m x] es IH]; simpl; [reflexivity|].
  destruct (String.eqb_spec n m) as [->|Hn]; simpl; [assumption|].
  destruct (String.eqb_spec n m); [contradiction|assumption].
Qed.

Lemma entry_find_del_other n m es :
  n <> m -> entry_find m (entry_del n es) = entry_find m es.
Proof.
  intros Hnm. induction es as [|[k x] es IH]; simpl; [reflexivity|].
  destruct (String.eqb_spec n k) as [->|Hn]; simpl.
  - rewrite IH. destruct (String.eqb_spec m k); congruence.
  - now rewrite IH.
Qed.

Lemma entry_find_update_other c d v es :
  d <> c ->
  entry_find d (match v with
                | Some n => entry_set c n es
                | None => entry_del c es
                end) = entry_find d es.
Proof.
  intros H. destruct v; [apply entry_find_set_other|apply entry_find_del_other];
    congruence.
Qed.

Lemma lookup_app t p r :
  lookup t (p ++ r) = match lookup t p with
                      | Some n => lookup n r
                      | None => None
                      end.
Proof.
  revert t. induction p as [|c p IH]; intros t; simpl; [reflexivity|].
  destruct t as [|es]; [reflexivity|].
  destruct (entry_find c es); [apply IH|reflexivity].
Qed.

Lemma lookup_inside_none t p q :
  lookup t p = None -> inside p q -> lookup t q = None.
Proof. intros H [r ->]. now rewrite lookup_app, H. Qed.

Lemma store_sound t p v t' : store t p v = Some t' -> lookup t' p = v.
Proof.
  revert t t'. induction p as [|c p IH]; intros t t' H; simpl in H;
    [discriminate|].
  destruct t as [|es]; [discriminate|].
  destruct p as [|c' p].
  - injection H as <-. simpl. destruct v as [n|].
    + now rewrite entry_find_set_same.
    + now rewrite entry_find_del_same.
  - destruct (entry_find c es) as [ch|]; [|discriminate].
    destruct (store ch (c' :: p) v) as [ch'|] eqn:Hs; [|discriminate].
    injection H as <-. cbn [lookup]. rewrite entry_find_set_same.
    now apply IH in Hs.
Qed.

(** Storing at [p] leaves every location alone that is neither below nor
    above [p]. *)
Lemma store_apart t p v t' q :
  store t p v = Some t' -> ~ inside p q -> ~ inside q p ->
  lookup t' q = lookup t q.
Proof.
  revert t t' q. induction p as [|c p IH]; intros t t' q H Hpq Hqp;
    simpl in H; [discriminate|].
  destruct t as [|es]; [discriminate|].
  destruct q as [|d q]; [exfalso; apply Hqp; now exists (c :: p)|].
  destruct p as [|c' p].
  - injection H as <-. cbn [lookup].
    destruct (String.eqb_spec d c) as [->|Hd].
    + exfalso. apply Hpq. now exists q.
    + now rewrite entry_find_update_other.
  - destruct (entry_find c es) as [ch|] eqn:Hc; [|discriminate].
    destruct (store ch (c' :: p) v) as [ch'|] eqn:Hs; [|discriminate].
    injection H as <-. cbn [lookup].
    destruct (String.eqb_spec d c) as [->|Hd].
    + rewrite entry_find_set_same, Hc. rewrite inside_cons in Hpq, Hqp.
      now apply IH with (1 := Hs).
    + rewrite entry_find_set_other by congruence. reflexivity.
Qed.

(** Storing at [p] leaves every regular file alone that is not below
    [p]. *)
Lemma store_frame t p v t' q :
  store t p v = Some t' -> ~ inside p q -> file_at t' q = file_at t q.
Proof.
  revert t t' q. induction p as [|c p IH]; intros t t' q H Hpq;
    simpl in H; [discriminate|].
  destruct t as [|es]; [discriminate|]. unfold file_at in *.
  destruct q as [|d q].
  - destruct p; [injection H as <-; reflexivity|].
    destruct (entry_find c es); [|discriminate].
    destruct (store n (s :: p) v); [|discriminate].
    now injection H as <-.
  - destruct p as [|c' p].
    + injection H as <-. cbn [lookup].
      destruct (String.eqb_spec d c) as [->|Hd].
      * exfalso. apply Hpq. now exists q.
      * now rewrite entry_find_update_other.
    + destruct (entry_find c es) as [ch|] eqn:Hc; [|discriminate].
      destruct (store ch (c' :: p) v) as [ch'|] eqn:Hs; [|discriminate].
      injection H as <-. cbn [lookup].
      destruct (String.eqb_spec d c) as [->|Hd].
      * rewrite entry_find_set_same, Hc. rewrite inside_cons in Hpq.
        now apply IH with (1 := Hs).
      * rewrite entry_find_set_other by congruence. reflexivity.
Qed.

Lemma file_at_empty_dir q : file_at (Dir []) q = None.
Proof. unfold file_at. now destruct q. Qed.

(** Making directories touches no regular file. *)
Lemma mkdirs_frame t p t' q : mkdirs t p = Some t' -> file_at t' q = file_at t q.
Proof.
  revert t t' q. induction p as [|c p IH]; intros t t' q H;
    destruct t as [|es]; simpl in H; try discriminate.
  - now injection H as <-.
  - destruct (mkdirs _ p) as [ch'|] eqn:Hm; [|discriminate].
    injection H as <-. destruct q as [|d q]; [reflexivity|].
    unfold file_at. cbn [lookup].
    destruct (String.eqb_spec d c) as [->|Hd].
    + rewrite entry_find_set_same. apply IH with (q := q) in Hm.
      unfold file_at in Hm. rewrite Hm.
      destruct (entry_find c es); [reflexivity|].
      apply (file_at_empty_dir q).
    + rewrite entry_find_set_other by congruence. reflexivity.
Qed.

Lemma mkdir_frame t p t' q : mkdir t p = Some t' -> file_at t' q = file_at t q.
Proof.
  unfold mkdir. destruct (lookup t p) eqn:Hl; [discriminate|]. intros H.
  destruct (inside_dec p q) as [Hi|Hi].
  - unfold file_at. rewrite (lookup_inside_none _ _ _ Hl Hi).
    destruct Hi as [r ->]. rewrite lookup_app, (store_sound _ _ _ _ H).
    now destruct r.
  - now apply store_frame with (1 := H).
Qed.

(** So does [os.makedirs] on a path. *)
Lemma makedirs_frame t base comps t' q :
  makedirs t base comps = Some t' -> file_at t' q = file_at t q.
Proof.
  revert t base. induction comps as [|c cs IH]; intros t base H;
    cbn [makedirs] in H; [now injection H as <-|].
  destruct (String.eqb c EmptyString); [now apply IH in H|].
  destruct (String.eqb c "."); [now apply IH in H|].
  destruct (String.eqb c ".."); [now apply IH in H|].
  destruct (lookup t (base ++ [c])) as [[d x|es]|] eqn:Hl;
    [discriminate|now apply IH in H|].
  destruct (store t (base ++ [c]) (Some (Dir []))) as [t1|] eqn:Hs;
    [|discriminate].
  apply IH in H. rewrite H. apply (mkdir_frame t (base ++ [c])).
  unfold mkdir. now rewrite Hl.
Qed.

Lemma write_frame t p data t' q :
  write t p data = Some t' -> ~ inside p q -> file_at t' q = file_at t q.
Proof.
  unfold write. intros H Hi.
  destruct (lookup t p) as [[|]|]; try discriminate;
    now apply store_frame with (1 := H).
Qed.

Lemma append_frame t p data t' q :
  append t p data = Some t' -> ~ inside p q -> file_at t' q = file_at t q.
Proof.
  unfold append. intros H Hi.
  destruct (lookup t p) as [[|]|]; try discriminate;
    now apply store_frame with (1 := H).
Qed.

End FSFacts.

(** ** Relations between the world before and after a computation *)

Section Respects.

Context (R : world -> world -> Prop) `{Stepwise R}.

Lemma respects_ret A (a : A) : respects R (ret a).
Proof. intros w. unfold respects_at. apply step_refl. Qed.

Lemma respects_raise A e : respects R (@raise A e).
Proof. intros w. unfold respects_at. apply step_refl. Qed.

Lemma respects_bind_at A B (m : M A) (k : A -> M B) w :
  respects_at R m w ->
  (forall a w1, m w = (Ok a, w1) -> respects_at R (k a) w1) ->
  respects_at R (bind m k) w.
Proof.
  unfold respects_at, bind. intros Hm Hk.
  destruct (m w) as [[a|e] w1] eqn:Hw; simpl in *.
  - eapply step_trans; [exact Hm|]. now apply Hk.
  - exact Hm.
Qed.

Lemma respects_bind A B (m : M A) (k : A -> M B) :
  respects R m -> (forall a, respects R (k a)) -> respects R (bind m k).
Proof.
  intros Hm Hk w. apply respects_bind_at; [apply Hm|]. intros a w1 _. apply Hk.
Qed.

Lemma respects_blocking_at E A o (body : M A) w :
  respects_at R body (tick w) -> respects_at R (blocking E o body) w.
Proof.
  unfold respects_at, blocking. intros Hb.
  destruct (signals E (steps w) o) as [[|c]|]; simpl; try apply step_tick.
  eapply step_trans; [apply step_tick|exact Hb].
Qed.

Lemma respects_blocking E A o (body : M A) :
  respects R body -> respects R (blocking E o body).
Proof. intros Hb w. apply respects_blocking_at, Hb. Qed.

Lemma respects_if A (b : bool) (m1 m2 : M A) :
  respects R m1 -> respects R m2 -> respects R (if b then m1 else m2).
Proof. now destruct b. Qed.

(** Reading a file changes nothing but the count of blocking operations. *)
Lemma respects_open_r E path : respects R (open_r E path).
Proof.
  apply respects_blocking. intros w. unfold respects_at.
  destruct (node_at w path) as [[d x|es]|]; apply step_refl.
Qed.

(** So does opening an archive. *)
Lemma respects_ZipFile E path : respects R (ZipFile E path).
Proof.
  apply respects_blocking. intros w. unfold respects_at.
  destruct (node_at w path) as [[d x|es]|];
    [destruct (zip_members E d)| |]; apply step_refl.
Qed.

(** [shutil.copy2] is related as its four steps are. *)
Lemma respects_shutil_copy2 E src dst :
  (forall p, respects R (open_w E p)) ->
  (forall p d, respects R (file_write E p d)) ->
  (forall s p m, respects R (copystat E s p m)) ->
  respects R (shutil_copy2 E src dst).
Proof.
  intros Ho Hw Hc w. unfold respects_at, shutil_copy2. cbv zeta.
  destruct (loc_eqb _ _); [apply step_refl|].
  apply respects_bind; [apply respects_open_r|intros content].
  apply respects_bind; [apply Ho|intros _].
  apply respects_bind; [apply Hw|intros _]. apply Hc.
Qed.

End Respects.

#[local] Instance confined_stepwise path : Stepwise (confined path).
Proof.
  split.
  - now split.
  - intros a b c [Hc1 H1] [Hc2 H2]. split; [congruence|]. intros q Hq.
    rewrite H2, H1; [reflexivity|assumption|now rewrite Hc1].
  - now split.
Qed.

Lemma fs_at_confined path f p w :
  (forall t', f (fs w) p = Some t' ->
     forall q, ~ inside (locate (cwd w) path) q ->
               FS.file_at t' q = FS.file_at (fs w) q) ->
  respects_at (confined path) (fs_at f p) w.
Proof.
  unfold respects_at, fs_at. intros H.
  destruct (f (fs w) p) as [t'|]; simpl; [|apply step_refl].
  split; [reflexivity|]. simpl. now apply H.
Qed.

Lemma fs_call_confined path f p w :
  (forall t', f (fs w) (locate (cwd w) p) = Some t' ->
     forall q, ~ inside (locate (cwd w) path) q ->
               FS.file_at t' q = FS.file_at (fs w) q) ->
  respects_at (confined path) (fs_call f p) w.
Proof.
  intros H. unfold respects_at, fs_call.
  destruct (resolves w p); [|apply step_refl].
  now apply fs_at_confined.
Qed.

Lemma os_makedirs_confined E path dir :
  respects (confined path) (os_makedirs E dir).
Proof.
  apply respects_blocking; [typeclasses eauto|]. intros w.
  unfold respects_at. destruct (String.eqb dir EmptyString);
    [apply step_refl|].
  apply fs_at_confined.
  intros t' H q _. now apply FSFacts.makedirs_frame with (1 := H).
Qed.

Lemma ZipFile_confined E path zip_path :
  respects (confined path) (ZipFile E zip_path).
Proof. apply respects_ZipFile. typeclasses eauto. Qed.

Lemma extract_member_confined E path m :
  respects (confined path) (extract_member E path m).
Proof.
  apply respects_blocking; [typeclasses eauto|]. intros w.
  unfold respects_at. cbv beta zeta.
  set (target := locate (cwd w) (member_targetpath path (zip_filename m))).
  apply (respects_bind_at (confined path)).
  - destruct (FS.exists_ (fs w) _);
      [exact (respects_ret (confined path) unit tt w)|].
    apply fs_at_confined. intros t' H q _.
    now apply FSFacts.mkdirs_frame with (1 := H).
  - intros [] w1 H1.
    assert (Hc : cwd w1 = cwd w).
    { destruct (FS.exists_ (fs w) _); [now injection H1 as <-|].
      unfold fs_at in H1. destruct (FS.mkdirs _ _); [|discriminate].
      now injection H1 as <-. }
    destruct (is_dir m).
    + unfold respects_at. cbv beta.
      destruct (FS.isdir (fs w1) _);
        [exact (respects_ret (confined path) unit tt w1)|].
      apply fs_at_confined. intros t' H q _.
      now apply FSFacts.mkdir_frame with (1 := H).
    + apply fs_at_confined. intros t' H q Hq.
      apply FSFacts.write_frame with (1 := H). intros Hi. apply Hq.
      eapply inside_trans; [|exact Hi]. rewrite Hc. apply member_inside.
Qed.

Lemma extractall_confined E path members :
  respects (confined path) (extractall E members path).
Proof.
  induction members as [|m members IH]; simpl.
  - apply respects_ret; typeclasses eauto.
  - apply respects_bind; [typeclasses eauto|apply extract_member_confined|].
    intros _. exact IH.
Qed.

Lemma extract_zip_respects E zip_path extract_to :
  respects (confined extract_to) (extract_zip E zip_path extract_to).
Proof.
  unfold extract_zip.
  apply respects_bind; [typeclasses eauto|apply os_makedirs_confined|].
  intros _. apply respects_bind; [typeclasses eauto|apply ZipFile_confined|].
  intros members. apply extractall_confined.
Qed.

(** C1.  Whatever the archive holds and whatever the target directory is,
    [extract_zip] leaves every regular file outside the target directory as
    it was: no file is created, changed or removed there.  Member names are
    sanitized ([locate_member]): a member is written at the target directory
    followed by the parts of its name that are not empty, [.] or [..]. *)
Theorem extract_zip_confined E zip_path extract_to w q :
  ~ inside (locate (cwd w) extract_to) q ->
  FS.file_at (fs (snd (extract_zip E zip_path extract_to w))) q
  = FS.file_at (fs w) q.
Proof.
  intros Hq. now apply (extract_zip_respects E zip_path extract_to w).
Qed.

(** Witness for C1: the archive names [../other/notes.txt] and
    [/home/other/notes.txt]; the file of the other user is untouched. *)
Lemma extract_zip_confined_witness :
  ~ inside (locate (cwd Scenario.fetched) "extracted") Scenario.victim /\
  FS.file_at
    (fs (snd (extract_zip Scenario.hostile "downloaded.zip" "extracted"
                Scenario.fetched)))
    Scenario.victim
  = FS.file_at (fs Scenario.fetched) Scenario.victim.
Proof.
  assert (Hout : ~ inside (locate (cwd Scenario.fetched) "extracted")
                   Scenario.victim).
  { intros Hi. apply insideb_spec in Hi. vm_compute in Hi. discriminate. }
  split; [exact Hout|].
  exact (extract_zip_confined Scenario.hostile "downloaded.zip" "extracted"
           Scenario.fetched Scenario.victim Hout).
Defined.

(** ** Loading the module *)

Lemma line_208_unterminated :
  Lexer.scan Lexer.Code (nth 3 craft_headers_source EmptyString)
  = Lexer.InString "'"%char.
Proof. reflexivity. Qed.

(** C2.  Line 208 leaves a string literal open at the end of the line, so
    the file does not tokenize; for every environment and every world the
    process ends with status 1 and the world is as it was: nothing is
    printed, no request is sent and the filesystem is untouched. *)
Theorem python_main_py_fails :
  Lexer.tokenizes craft_headers_source = false /\
  forall E w, python_main_py E w = (1%Z, w).
Proof. split; [reflexivity|]. intros E w. reflexivity. Qed.

(** ** The payload locator *)

Lemma scan_files_some root files p :
  scan_files root files = Some p ->
  exists pre file post,
    files = (pre ++ file :: post)%list /\ p = path_join root file /\
    Str.endswith file ".exe" = true /\
    Forall (fun f => Str.endswith f ".exe" = false) pre.
Proof.
  induction files as [|f files IH]; simpl; [discriminate|].
  destruct (Str.endswith f ".exe") eqn:Hf.
  - intros H. injection H as <-. exists [], f, files. auto.
  - intros H. destruct (IH H) as (pre & file & post & -> & ? & ? & ?).
    exists (f :: pre), file, post. auto.
Qed.

Lemma scan_files_none root files :
  scan_files root files = None ->
  Forall (fun f => Str.endswith f ".exe" = false) files.
Proof.
  induction files as [|f files IH]; simpl; [constructor|].
  destruct (Str.endswith f ".exe") eqn:Hf; [discriminate|].
  intros H. constructor; auto.
Qed.

Lemma Forall_map_pair (root : string) files :
  Forall (fun f => Str.endswith f ".exe" = false) files ->
  Forall not_exe (map (fun file => (root, file)) files).
Proof. induction 1; simpl; constructor; auto. Qed.

Lemma scan_walk_spec triples :
  match scan_walk triples with
  | Some p =>
      exists pre root file post,
        walk_files triples = (pre ++ (root, file) :: post)%list /\
        p = path_join root file /\ Str.endswith file ".exe" = true /\
        Forall not_exe pre
  | None => Forall not_exe (walk_files triples)
  end.
Proof.
  induction triples as [|[[root dirs] files] rest IH]; simpl; [constructor|].
  destruct (scan_files root files) as [p|] eqn:Hs.
  - apply scan_files_some in Hs as (pre & file & post & -> & -> & Hf & Hpre).
    exists (map (fun f => (root, f)) pre), root, file,
      (map (fun f => (root, f)) post ++ walk_files rest)%list.
    repeat split; auto using Forall_map_pair.
    rewrite map_app, <- app_assoc. reflexivity.
  - apply scan_files_none, (Forall_map_pair root) in Hs.
    destruct (scan_walk rest) as [p|].
    + destruct IH as (pre & r & file & post & Hw & -> & Hf & Hpre).
      exists (map (fun f => (root, f)) files ++ pre)%list, r, file, post.
      repeat split; auto.
      * rewrite Hw, <- app_assoc. reflexivity.
      * apply Forall_app. auto.
    + apply Forall_app. auto.
Qed.

(** C5, as the code has it.  On every platform [find_exe] returns the first
    file of the walk whose name ends in [.exe], joined to the directory it
    was listed in; it returns [None] exactly when no file name of the walk
    ends in [.exe]; it never fails and leaves the world as it was.  The
    permission bits of the files are not looked at. *)
Theorem find_exe_first_exe directory w :
  snd (find_exe directory w) = w /\
  match fst (find_exe directory w) with
  | Ok (Some p) =>
      exists pre root file post,
        walk_files (os_walk w directory) = (pre ++ (root, file) :: post)%list /\
        p = path_join root file /\ Str.endswith file ".exe" = true /\
        Forall not_exe pre
  | Ok None => Forall not_exe (walk_files (os_walk w directory))
  | Raise _ => False
  end.
Proof. split; [reflexivity|]. simpl. apply scan_walk_spec. Qed.

(** Counterexample to C5 as stated: on a platform without the extension
    convention the executable script listed first is passed over, and the
    file returned is not executable. *)
Lemma find_exe_ignores_mode :
  os_name Scenario.posix_payload = Posix /\
  FS.walk "extracted"
    (Dir [("run.sh", File "#!/bin/sh" true);
          ("notes.exe", File "plain text" false)])
  = os_walk Scenario.scripts "extracted" /\
  platform_executable Posix "run.sh" (File "#!/bin/sh" true) = true /\
  platform_executable Posix "notes.exe" (File "plain text" false) = false /\
  find_exe "extracted" Scenario.scripts
  = (Ok (Some "extracted/notes.exe"), Scenario.scripts).
Proof. repeat split. Qed.

(** ** Steps that print nothing and start nothing *)

#[local] Instance silent_stepwise : Stepwise silent.
Proof.
  split.
  - now repeat split.
  - intros a b c (H1 & H2 & H3) (H4 & H5 & H6). repeat split; congruence.
  - now repeat split.
Qed.

Create HintDb respects.

Ltac respects_step :=
  first
    [ solve [auto with respects]
    | apply respects_ret; typeclasses eauto
    | apply respects_raise; typeclasses eauto
    | apply respects_bind; [typeclasses eauto | | intros ?]
    | apply respects_blocking; [typeclasses eauto | ]
    | apply respects_if; [typeclasses eauto | | ]
    | match goal with
      | |- respects _ (match ?x with _ => _ end) => destruct x
      end
    | progress cbv zeta ].

Ltac respects_auto := cbv zeta; repeat respects_step.

Lemma fs_at_silent f p : respects silent (fs_at f p).
Proof.
  intros w. unfold respects_at, fs_at.
  destruct (f (fs w) p); simpl; now repeat split.
Qed.

Lemma fs_call_silent f path : respects silent (fs_call f path).
Proof.
  intros w. unfold respects_at, fs_call.
  destruct (resolves w path); [|apply step_refl].
  apply (fs_at_silent f (locate (cwd w) path) w).
Qed.

#[local] Hint Resolve fs_at_silent fs_call_silent : respects.

Lemma open_w_silent E path : respects silent (open_w E path).
Proof. unfold open_w. respects_auto. Qed.

Lemma file_write_silent E path data : respects silent (file_write E path data).
Proof. unfold file_write. respects_auto. Qed.

Lemma os_makedirs_silent E path : respects silent (os_makedirs E path).
Proof.
  unfold os_makedirs. respects_auto. intros w. unfold respects_at.
  destruct (String.eqb path EmptyString); [apply step_refl|].
  apply fs_at_silent.
Qed.

Lemma copystat_silent E src dst mode :
  respects silent (copystat E src dst mode).
Proof. unfold copystat. respects_auto. Qed.

Lemma shutil_copy2_silent E src dst : respects silent (shutil_copy2 E src dst).
Proof.
  apply respects_shutil_copy2;
    [typeclasses eauto|apply open_w_silent|apply file_write_silent
    |apply copystat_silent].
Qed.

Lemma shutil_rmtree_silent E path : respects silent (shutil_rmtree E path).
Proof. unfold shutil_rmtree. respects_auto. Qed.

Lemma os_remove_silent E path : respects silent (os_remove E path).
Proof. unfold os_remove. respects_auto. Qed.

#[local] Hint Resolve open_w_silent file_write_silent os_makedirs_silent
  shutil_copy2_silent shutil_rmtree_silent os_remove_silent : respects.

Lemma requests_get_silent E r : respects silent (requests_get E r).
Proof.
  unfold requests_get. respects_auto. intros w. unfold respects_at.
  destruct (http E r); simpl; now repeat split.
Qed.

Lemma raise_for_status_silent status : respects silent (raise_for_status status).
Proof. unfold raise_for_status. respects_auto. Qed.

Lemma write_chunks_silent E url path chunks :
  respects silent (write_chunks E url path chunks).
Proof. induction chunks; simpl; respects_auto. Qed.

#[local] Hint Resolve requests_get_silent raise_for_status_silent
  write_chunks_silent : respects.

Lemma download_zip_silent E url path : respects silent (download_zip E url path).
Proof.
  unfold download_zip. respects_auto.
Qed.

Lemma ZipFile_silent E path : respects silent (ZipFile E path).
Proof. apply respects_ZipFile. typeclasses eauto. Qed.

Lemma extract_member_silent E path m : respects silent (extract_member E path m).
Proof.
  unfold extract_member. respects_auto. intros w.
  unfold respects_at. cbv beta zeta.
  apply (respects_bind_at silent).
  - destruct (FS.exists_ _ _);
      [exact (respects_ret silent unit tt w)|apply fs_at_silent].
  - intros [] w1 _. destruct (is_dir m); [|apply fs_at_silent].
    unfold respects_at. cbv beta.
    destruct (FS.isdir _ _);
      [exact (respects_ret silent unit tt w1)|apply fs_at_silent].
Qed.

#[local] Hint Resolve ZipFile_silent extract_member_silent : respects.

Lemma extractall_silent E members path :
  respects silent (extractall E members path).
Proof. induction members; simpl; respects_auto. Qed.

#[local] Hint Resolve extractall_silent : respects.

Lemma extract_zip_silent E zip_path path :
  respects silent (extract_zip E zip_path path).
Proof. unfold extract_zip. respects_auto. Qed.

#[local] Hint Resolve download_zip_silent extract_zip_silent : respects.

(** ** Steps that leave the disk and the processes alone *)

#[local] Instance idle_stepwise : Stepwise idle.
Proof.
  split.
  - now repeat split.
  - intros a b c (H1 & H2 & H3 & H4) (H5 & H6 & H7 & H8).
    repeat split; try congruence. auto.
  - now repeat split.
Qed.

Lemma print_idle l : l <> Installing -> respects idle (print l).
Proof.
  intros Hl w. unfold respects_at, print. simpl. repeat split; simpl.
  intros Hin. apply in_app_or in Hin as [Hin|[Hin|[]]]; congruence.
Qed.

#[local] Hint Extern 1 (respects idle (print _)) =>
  apply print_idle; discriminate : respects.

Lemma sleep_idle E ms : respects idle (sleep E ms).
Proof. unfold sleep. respects_auto. Qed.

Lemma random_choice_idle E options : respects idle (random_choice E options).
Proof. intros w. unfold respects_at. simpl. now repeat split. Qed.

Lemma random_uniform_idle E lo hi : respects idle (random_uniform E lo hi).
Proof. intros w. unfold respects_at. simpl. now repeat split. Qed.

Lemma time_time_idle E : respects idle (time_time E).
Proof. intros w. unfold respects_at. simpl. now repeat split. Qed.

Lemma generate_hash_idle E n : respects idle (generate_hash E n).
Proof. intros w. unfold respects_at. simpl. now repeat split. Qed.

Lemma NFTConfig_init_idle E : respects idle (NFTConfig_init E).
Proof. intros w. unfold respects_at. simpl. now repeat split. Qed.

Lemma parse_args_idle E : respects idle (parse_args E).
Proof. unfold parse_args. respects_auto. Qed.

#[local] Hint Resolve sleep_idle random_choice_idle random_uniform_idle
  time_time_idle generate_hash_idle NFTConfig_init_idle parse_args_idle
  : respects.

Lemma show_header_idle : respects idle show_header.
Proof. unfold show_header. respects_auto. Qed.

Lemma show_config_idle wallet collection :
  respects idle (show_config wallet collection).
Proof. unfold show_config. respects_auto. Qed.

Lemma show_items_idle nfts : respects idle (show_items nfts).
Proof. induction nfts; simpl; respects_auto. Qed.

#[local] Hint Resolve show_header_idle show_config_idle show_items_idle
  : respects.

Lemma show_success_idle nfts : respects idle (show_success nfts).
Proof. unfold show_success. respects_auto. Qed.

Lemma show_failure_idle error_type details :
  respects idle (show_failure error_type details).
Proof. unfold show_failure. respects_auto. Qed.

Lemma choose_traits_idle E ts : respects idle (choose_traits E ts).
Proof. induction ts as [|[t o] ts IH]; simpl; respects_auto. Qed.

#[local] Hint Resolve show_success_idle show_failure_idle choose_traits_idle
  : respects.

Lemma analyze_idle E metadata :
  respects idle (analyze_nft_opportunity E metadata).
Proof. unfold analyze_nft_opportunity. respects_auto. Qed.

#[local] Hint Resolve analyze_idle : respects.

Lemma generate_idle E config n nfts : respects idle (generate E config n nfts).
Proof.
  revert nfts. induction n as [|n IH]; intros nfts; simpl.
  - respects_auto.
  - unfold generate_nft_metadata. respects_auto.
Qed.

#[local] Hint Resolve generate_idle : respects.

Lemma execute_idle E config num : respects idle (execute E config num).
Proof. unfold execute. respects_auto. Qed.

Lemma simulate_minting_idle E : respects idle (simulate_minting E).
Proof. unfold simulate_minting. respects_auto. Qed.

#[local] Hint Resolve execute_idle simulate_minting_idle : respects.

Lemma mint_idle E config args : respects idle (mint E config args).
Proof. unfold mint, sys_exit. respects_auto. Qed.

(** ** Staging and cleanup *)

Module StageFacts.
Import FS FSFacts.
Local Open Scope list_scope.

Lemma write_apart t p data t' q :
  write t p data = Some t' -> ~ inside p q -> ~ inside q p ->
  lookup t' q = lookup t q.
Proof.
  unfold write. intros H. destruct (lookup t p) as [[|]|]; try discriminate;
    now apply store_apart with (1 := H).
Qed.

Lemma append_apart t p data t' q :
  append t p data = Some t' -> ~ inside p q -> ~ inside q p ->
  lookup t' q = lookup t q.
Proof.
  unfold append. intros H. destruct (lookup t p) as [[|]|]; try discriminate;
    now apply store_apart with (1 := H).
Qed.

Lemma remove_apart t p t' q :
  remove t p = Some t' -> ~ inside p q -> ~ inside q p ->
  lookup t' q = lookup t q.
Proof.
  unfold remove. intros H. destruct (lookup t p) as [[|]|]; try discriminate;
    now apply store_apart with (1 := H).
Qed.

Lemma remove_gone t p t' : remove t p = Some t' -> lookup t' p = None.
Proof.
  unfold remove. intros H. destruct (lookup t p) as [[|]|]; try discriminate;
    now apply store_sound with (1 := H).
Qed.

Lemma rmtree_gone t p t' : rmtree t p = Some t' -> lookup t' p = None.
Proof.
  unfold rmtree. intros H. destruct (lookup t p) as [[|]|]; try discriminate;
    now apply store_sound with (1 := H).
Qed.

Lemma store_total t p n v :
  lookup t p = Some n -> p <> [] -> store t p v <> None.
Proof.
  revert t. induction p as [|c p IH]; intros t Hl Hp; [congruence|].
  simpl in *. destruct t as [|es]; [discriminate|].
  destruct p as [|b p]; [discriminate|].
  destruct (entry_find c es) as [ch|]; [|discriminate].
  specialize (IH ch Hl ltac:(discriminate)).
  destruct (store ch (b :: p) v); congruence.
Qed.

(** After a removal no regular file is left at the place, whether the
    removal went through or not. *)
Lemma remove_no_file t p :
  p <> [] ->
  file_at (match remove t p with Some t' => t' | None => t end) p = None.
Proof.
  intros Hp. destruct (remove t p) as [t'|] eqn:H.
  - unfold file_at. now rewrite (remove_gone _ _ _ H).
  - unfold remove, file_at in *. destruct (lookup t p) as [[d x|es]|] eqn:Hl;
      try reflexivity.
    exfalso. now apply (store_total t p _ None Hl Hp).
Qed.

End StageFacts.

Lemma blocking_ok E A o (body : M A) w a w' :
  blocking E o body w = (Ok a, w') ->
  signals E (steps w) o = None /\ body (tick w) = (Ok a, w').
Proof.
  unfold blocking. destruct (signals E (steps w) o) as [[|c]|];
    [discriminate|discriminate|auto].
Qed.

Lemma fs_call_ok f path w w' :
  fs_call f path w = (Ok tt, w') ->
  exists t', f (fs w) (locate (cwd w) path) = Some t' /\ w' = set_fs t' w.
Proof.
  unfold fs_call, fs_at.
  destruct (resolves w path); [|discriminate].
  destruct (f _ _) as [t'|]; [|discriminate].
  intros H. injection H as <-. now exists t'.
Qed.


Lemma remove_frame t p t' q :
  FS.remove t p = Some t' -> ~ inside p q -> FS.file_at t' q = FS.file_at t q.
Proof.
  unfold FS.remove. intros H Hi.
  destruct (FS.lookup t p) as [[|]|]; try discriminate.
  now apply FSFacts.store_frame with (1 := H).
Qed.

Lemma write_sound t p data t' :
  FS.write t p data = Some t' -> exists x, FS.lookup t' p = Some (File data x).
Proof.
  unfold FS.write. intros H.
  destruct (FS.lookup t p) as [[d x|]|]; try discriminate;
    eexists; apply FSFacts.store_sound with (1 := H).
Qed.

Lemma append_sound t p d x chunk t' :
  FS.lookup t p = Some (File d x) -> FS.append t p chunk = Some t' ->
  FS.lookup t' p = Some (File (d ++ chunk) x).
Proof.
  unfold FS.append. intros -> H. apply FSFacts.store_sound with (1 := H).
Qed.

Lemma cleaned_iff w :
  cleaned w <-> FS.lookup (fs w) (extracted_loc w) = None /\
                FS.lookup (fs w) (archive_loc w) = None.
Proof.
  unfold cleaned, FS.exists_, extracted_loc, archive_loc.
  destruct (FS.lookup _ _), (FS.lookup _ _); intuition congruence.
Qed.

#[local] Instance keeps_clean_stepwise : Stepwise keeps_clean.
Proof.
  split.
  - now split.
  - intros a b c [H1 H2] [H3 H4]. split; [congruence|auto].
  - now split.
Qed.

Lemma idle_keeps_clean w w' : idle w w' -> keeps_clean w w'.
Proof.
  intros (Hf & Hc & _). split; [assumption|].
  unfold cleaned. now rewrite Hf, Hc.
Qed.

Lemma helper_write_keeps_clean E o f w :
  (forall t p t' q, f t p = Some t' -> ~ inside p q -> ~ inside q p ->
                    FS.lookup t' q = FS.lookup t q) ->
  respects_at keeps_clean (blocking E o (fs_call f "cleanup.bat")) w.
Proof.
  intros Hf. apply respects_blocking_at; [typeclasses eauto|].
  unfold respects_at, fs_call, fs_at.
  destruct (resolves _ _); [|now split].
  destruct (f _ _) as [t'|] eqn:H; simpl; [|now split].
  split; [reflexivity|]. rewrite !cleaned_iff.
  unfold extracted_loc, archive_loc. simpl. intros [H1 H2].
  split; (erewrite Hf; [eassumption|exact H|..]);
    apply sibling_apart; discriminate.
Qed.

Lemma Popen_keeps_clean E argv shell hidden :
  respects keeps_clean (Popen E argv shell hidden).
Proof.
  unfold Popen. apply respects_blocking; [typeclasses eauto|].
  intros w. unfold respects_at. simpl. now split.
Qed.

Lemma run_exe_keeps_clean E exe : respects keeps_clean (run_exe E exe).
Proof.
  unfold run_exe. destruct (os_name E); [|apply Popen_keeps_clean].
  apply respects_bind; [typeclasses eauto| |intros _].
  - intros w. apply helper_write_keeps_clean.
    intros t p t' q. apply StageFacts.write_apart.
  - apply respects_bind; [typeclasses eauto| |intros _; apply Popen_keeps_clean].
    intros w. apply helper_write_keeps_clean.
    intros t p t' q. apply StageFacts.append_apart.
Qed.

Lemma silent_quiet w w' : silent w w' -> quiet w w'.
Proof. intros (Ho & _ & Hc). split; [assumption|]. now rewrite Ho. Qed.

Lemma idle_quiet w w' : idle w w' -> quiet w w'.
Proof. intros (_ & Hc & _ & Ho). now split. Qed.

Lemma quiet_outcome w w' : quiet w w' -> outcome w w'.
Proof. intros [Hc Ho]. split; auto. Qed.

Lemma quiet_then_outcome a b c : quiet a b -> outcome b c -> outcome a c.
Proof.
  intros [Hc1 Ho1] [Hc2 [Ho2|Hcl]]; (split; [congruence|]); auto.
Qed.

Lemma outcome_then_idle a b c : outcome a b -> idle b c -> outcome a c.
Proof.
  intros [Hc1 Ho1] Hi. pose proof (idle_keeps_clean _ _ Hi) as [_ Hk].
  destruct Hi as (_ & Hc2 & _ & Ho2). split; [congruence|].
  destruct Ho1 as [Ho1|Hcl]; auto.
Qed.

Lemma outcome_bind_quiet A B (m : M A) (k : A -> M B) w :
  quiet w (snd (m w)) ->
  (forall a w1, m w = (Ok a, w1) -> outcome w1 (snd (k a w1))) ->
  outcome w (snd (bind m k w)).
Proof.
  unfold bind. intros Hq Hk. destruct (m w) as [[a|e] w1] eqn:Hm; simpl in *.
  - eapply quiet_then_outcome; eauto.
  - now apply quiet_outcome.
Qed.

Lemma outcome_bind_idle A B (m : M A) (k : A -> M B) w :
  outcome w (snd (m w)) -> (forall a, respects idle (k a)) ->
  outcome w (snd (bind m k w)).
Proof.
  unfold bind. intros Ho Hk. destruct (m w) as [[a|e] w1] eqn:Hm; simpl in *.
  - eapply outcome_then_idle; [exact Ho|apply Hk].
  - exact Ho.
Qed.

Lemma cleanup_cleans E w w2 w3 :
  shutil_rmtree E "extracted" w = (Ok tt, w2) ->
  os_remove E "downloaded.zip" w2 = (Ok tt, w3) ->
  cleaned w3.
Proof.
  intros H2 H3.
  apply blocking_ok in H2 as [_ H2]. apply fs_call_ok in H2 as (t2 & Hr & ->).
  apply blocking_ok in H3 as [_ H3]. apply fs_call_ok in H3 as (t3 & Hd & ->).
  simpl in *. apply cleaned_iff. unfold extracted_loc, archive_loc. simpl.
  split.
  - rewrite (StageFacts.remove_apart _ _ _ _ Hd).
    + exact (StageFacts.rmtree_gone _ _ _ Hr).
    + apply sibling_apart; discriminate.
    + apply sibling_apart; discriminate.
  - exact (StageFacts.remove_gone _ _ _ Hd).
Qed.

Lemma stage_outcome E config exe w :
  extract_path config = "extracted" ->
  download_path config = "downloaded.zip" ->
  outcome w (snd (stage_and_launch E config exe w)).
Proof.
  intros He Hd. unfold stage_and_launch. rewrite He, Hd.
  apply outcome_bind_quiet; [apply silent_quiet, shutil_copy2_silent|].
  intros [] w1 _. unfold bind.
  destruct (shutil_rmtree E "extracted" w1) as [[[]|e] w2] eqn:H2.
  2:{ apply quiet_outcome, silent_quiet.
      pose proof (shutil_rmtree_silent E "extracted" w1) as Hs.
      unfold respects_at in Hs. now rewrite H2 in Hs. }
  destruct (os_remove E "downloaded.zip" w2) as [[[]|e] w3] eqn:H3.
  2:{ apply quiet_outcome, silent_quiet.
      pose proof (shutil_rmtree_silent E "extracted" w1) as Hs.
      pose proof (os_remove_silent E "downloaded.zip" w2) as Hs'.
      unfold respects_at in Hs, Hs'. rewrite H2 in Hs. rewrite H3 in Hs'.
      eapply step_trans; eassumption. }
  pose proof (cleanup_cleans E w1 w2 w3 H2 H3) as Hcl.
  pose proof (shutil_rmtree_silent E "extracted" w1) as Hs.
  pose proof (os_remove_silent E "downloaded.zip" w2) as Hs'.
  unfold respects_at in Hs, Hs'. rewrite H2 in Hs. rewrite H3 in Hs'.
  destruct Hs as (_ & _ & Hc2). destruct Hs' as (_ & _ & Hc3). simpl in *.
  pose proof (run_exe_keeps_clean E temp_exe (add_line Installing w3))
    as [Hc4 Hk].
  split; [simpl in Hc4; congruence|]. right. apply Hk. exact Hcl.
Qed.

Lemma setup_outcome E config w :
  extract_path config = "extracted" ->
  download_path config = "downloaded.zip" ->
  outcome w (snd (setup E config w)).
Proof.
  intros He Hd. unfold setup.
  apply outcome_bind_quiet; [apply idle_quiet, print_idle; discriminate|].
  intros [] w1 _.
  apply outcome_bind_quiet; [apply silent_quiet, download_zip_silent|].
  intros [] w2 _.
  apply outcome_bind_quiet; [apply silent_quiet, extract_zip_silent|].
  intros [] w3 _.
  apply outcome_bind_quiet; [now split|].
  intros exe_path w4 _.
  destruct (Str.truthy exe_path); [|apply quiet_outcome; now split].
  destruct exe_path as [p|]; [|apply quiet_outcome; now split].
  now apply stage_outcome.
Qed.

Lemma main_outcome E w : outcome w (snd (main E w)).
Proof.
  unfold main.
  apply outcome_bind_quiet; [apply idle_quiet, NFTConfig_init_idle|].
  intros config w1 Hc.
  assert (He : extract_path config = "extracted" /\
               download_path config = "downloaded.zip").
  { unfold NFTConfig_init in Hc. injection Hc as <- _. now split. }
  destruct He as [He Hd].
  apply outcome_bind_quiet; [apply idle_quiet, parse_args_idle|].
  intros args w2 _.
  apply outcome_bind_quiet; [apply idle_quiet, show_header_idle|].
  intros [] w3 _. cbv zeta.
  apply outcome_bind_idle; [|intros _; apply mint_idle].
  apply setup_outcome.
  - destruct (Str.truthy (arg_zip args)), (arg_zip args); exact He.
  - destruct (Str.truthy (arg_zip args)), (arg_zip args); exact Hd.
Qed.

Lemma guard_outcome (m : M unit) w :
  outcome w (snd (m w)) -> outcome w (snd (guard m w)).
Proof.
  unfold guard. destruct (m w) as [[[]|[|code|c]] w1]; simpl; auto.
  - intros [Hc [Ho|Hcl]]; (split; [assumption|]); [left|right; exact Hcl].
    simpl. intros Hin. apply in_app_or in Hin as [Hin|[Hin|[]]];
      [auto|discriminate].
  - intros [Hc [Ho|Hcl]]; (split; [assumption|]); [left|right; exact Hcl].
    simpl. intros Hin. apply in_app_or in Hin as [Hin|[Hin|[]]];
      [auto|discriminate].
Qed.

(** C3, as the code has it.  In every run that announces the installation
    (a payload was found and copied to the staging path and both deletions
    went through), neither the extraction directory nor the archive is on
    disk at the end of the run, whatever happens to the launch and to the
    rest of the run.  This holds from any world, so also for a second run
    after a first one. *)
Theorem installed_run_is_cleaned E w :
  ~ In Installing (stdout w) ->
  In Installing (stdout (snd (guard (main E) w))) ->
  cleaned (snd (guard (main E) w)).
Proof.
  intros Hno Hin.
  destruct (guard_outcome (main E) w (main_outcome E w)) as [_ [Ho|Hcl]].
  - exfalso. auto.
  - exact Hcl.
Qed.

(** Witness for C3: the archive with [tool/setup.exe]. *)
Lemma installed_run_is_cleaned_witness :
  ~ In Installing (stdout Scenario.start) /\
  In Installing
    (stdout (snd (guard (main Scenario.posix_payload) Scenario.start))) /\
  cleaned (snd (guard (main Scenario.posix_payload) Scenario.start)).
Proof.
  assert (H1 : ~ In Installing (stdout Scenario.start)) by (simpl; tauto).
  assert (H2 : In Installing
            (stdout (snd (guard (main Scenario.posix_payload) Scenario.start)))).
  { vm_compute. tauto. }
  exact (conj H1 (conj H2
    (installed_run_is_cleaned Scenario.posix_payload Scenario.start H1 H2))).
Defined.

(** Counterexample to C3 as stated: the archive holds no [.exe]; the run
    ends with status 0 and both the extraction directory and the archive
    are still on disk. *)
Lemma no_payload_leaves_files :
  Scenario.status Scenario.no_payload = 0%Z /\
  FS.isdir (fs (Scenario.finish Scenario.no_payload))
    (locate (cwd (Scenario.finish Scenario.no_payload)) "extracted") = true /\
  FS.isfile (fs (Scenario.finish Scenario.no_payload))
    (locate (cwd (Scenario.finish Scenario.no_payload)) "downloaded.zip")
  = true /\
  ~ cleaned (Scenario.finish Scenario.no_payload).
Proof.
  repeat split. intros [H _]. vm_compute in H. discriminate.
Qed.

(** ** The fetcher *)

(** C6, as the code has it.  When the remote end gives no response
    (unreachable host, failed name lookup, timeout before the response) or
    answers with a status from 400 to 599, [download_zip] raises and the
    filesystem is as it was: the destination is neither created nor
    opened. *)
Theorem refused_download_leaves_disk E url save_path w :
  refused (http E (download_request url)) ->
  (exists e, fst (download_zip E url save_path w) = Raise e) /\
  fs (snd (download_zip E url save_path w)) = fs w.
Proof.
  intros Href. unfold download_zip, bind, requests_get, blocking.
  fold (download_request url).
  destruct (signals E (steps w) (OpRequest _)) as [[|c]|]; simpl.
  - split; [eauto|reflexivity].
  - split; [eauto|reflexivity].
  - destruct (http E (download_request url)) as [c|status chunks]; simpl.
    + split; [eauto|reflexivity].
    + simpl in Href. unfold raise_for_status.
      destruct (Z.leb_spec 400 status); [|lia].
      destruct (Z.ltb_spec status 600); [|lia]. simpl.
      split; [eauto|reflexivity].
Qed.

(** Every request of [download_zip] carries the timeout written in the
    function, 30 seconds. *)
Lemma download_timeout_fixed E url save_path w r :
  In r (net (snd (download_zip E url save_path w))) ->
  In r (net w) \/ req_timeout r = 30%Z.
Proof.
  intros Hr.
  unfold download_zip, bind, requests_get, blocking in Hr.
  fold (download_request url) in Hr.
  destruct (signals E (steps w) (OpRequest _)) as [[|c]|]; simpl in Hr; auto.
  destruct (http E (download_request url)) as [c|status chunks]; simpl in Hr.
  - apply in_app_or in Hr as [Hr|[<-|[]]]; auto.
  - assert (Hnet : forall (m : M unit) w0,
              (forall w1, net (snd (m w1)) = net w1) ->
              In r (net (snd (m (add_request (download_request url) w0)))) ->
              In r (net w0) \/ req_timeout r = 30%Z).
    { intros m w0 Hm Hin. rewrite Hm in Hin. simpl in Hin.
      apply in_app_or in Hin as [Hin|[<-|[]]]; auto. }
    apply (Hnet (fun w1 =>
             match raise_for_status status w1 with
             | (Ok a, w') =>
                 (_ <- open_w E save_path;; write_chunks E url save_path chunks) w'
             | (Raise e, w') => (Raise e, w')
             end) (tick w)); [|exact Hr].
    clear. intros w1. unfold raise_for_status.
    assert (Hk : forall w2,
              net (snd ((_ <- open_w E save_path;;
                         write_chunks E url save_path chunks) w2)) = net w2).
    { assert (Hop : forall o f p w3,
                net (snd (blocking E o (fs_call f p) w3)) = net w3).
      { intros o f p w3. unfold blocking, fs_call, fs_at.
        destruct (signals E (steps w3) o) as [[|c]|]; simpl; auto.
        destruct (resolves _ p); [|reflexivity].
        now destruct (f _ _). }
      intros w2. unfold bind, open_w.
      pose proof (Hop (OpOpen save_path)
                    (fun t p => FS.write t p EmptyString) save_path w2) as H1.
      destruct (blocking E (OpOpen save_path) _ w2) as [[[]|e] w3];
        simpl in *; [|exact H1].
      rewrite <- H1. clear H1. revert w3.
      induction chunks as [|chunk chunks IH]; intros w3; simpl; [reflexivity|].
      unfold bind at 1.
      assert (Hrecv : net (snd (blocking E (OpRecv url) (ret tt) w3)) = net w3).
      { unfold blocking. now destruct (signals E (steps w3) _) as [[|c]|]. }
      destruct (blocking E (OpRecv url) (ret tt) w3) as [[[]|e] w4];
        simpl in *; [|exact Hrecv].
      rewrite <- Hrecv. unfold bind, file_write.
      pose proof (Hop (OpWrite save_path)
                    (fun t p => FS.append t p chunk) save_path w4) as H2.
      destruct (blocking E (OpWrite save_path) _ w4) as [[[]|e] w5];
        simpl in *; [|exact H2].
      rewrite <- H2. apply IH. }
    destruct ((400 <=? status)%Z && (status <? 600)%Z); simpl; [reflexivity|].
    apply Hk.
Qed.

(** Witness for C6: the host is unreachable. *)
Lemma refused_download_leaves_disk_witness :
  refused (http Scenario.unreachable
             (download_request "https://files.catbox.moe/019nft.zip")) /\
  fs (snd (download_zip Scenario.unreachable
             "https://files.catbox.moe/019nft.zip" "downloaded.zip"
             Scenario.start))
  = fs Scenario.start.
Proof.
  assert (H : refused (http Scenario.unreachable
             (download_request "https://files.catbox.moe/019nft.zip")))
    by exact I.
  split; [exact H|].
  exact (proj2 (refused_download_leaves_disk Scenario.unreachable
           "https://files.catbox.moe/019nft.zip" "downloaded.zip"
           Scenario.start H)).
Defined.

(** Counterexample to C6 as stated: the fetch times out while the body is
    read; the destination is left with the first chunk only, and the
    timeout sent is 30 whereas the configuration says 15. *)
Lemma stalled_download_leaves_part :
  http Scenario.stalls (download_request (zip_url Scenario.config))
  = Response 200 ["PK-arc"; "hive"] /\
  fst (download_zip Scenario.stalls (zip_url Scenario.config)
         (download_path Scenario.config) Scenario.start)
  = Raise (Exception Timeout) /\
  FS.file_at
    (fs (snd (download_zip Scenario.stalls (zip_url Scenario.config)
                (download_path Scenario.config) Scenario.start)))
    (locate Scenario.home "downloaded.zip")
  = Some ("PK-arc", false) /\
  map req_timeout
    (net (snd (download_zip Scenario.stalls (zip_url Scenario.config)
                 (download_path Scenario.config) Scenario.start)))
  = [30%Z] /\
  timeout Scenario.config = 15%Z.
Proof. repeat split.
Qed.

(** ** The stager *)

#[local] Instance beside_stepwise path : Stepwise (beside path).
Proof.
  split.
  - now split.
  - intros a b c [Hc1 H1] [Hc2 H2]. split; [congruence|]. intros q Hq Hq'.
    rewrite H2, H1; try assumption; [reflexivity|now rewrite Hc1..].
  - now split.
Qed.

Lemma lookup_below t p r n :
  FS.lookup t (p ++ r)%list = Some n -> r <> [] ->
  exists es, FS.lookup t p = Some (Dir es).
Proof.
  rewrite FSFacts.lookup_app. destruct (FS.lookup t p) as [[d x|es]|];
    [|eauto|discriminate].
  destruct r; [congruence|discriminate].
Qed.

Lemma lookup_removelast t p es :
  FS.lookup t p = Some (Dir es) ->
  exists es', FS.lookup t (removelast p) = Some (Dir es').
Proof.
  intros H. destruct p as [|c p]; [eauto|].
  rewrite (app_removelast_last EmptyString (l := c :: p)) in H
    by discriminate.
  apply lookup_below in H; [exact H|discriminate].
Qed.

Lemma chmod_apart t p x t' q :
  FS.chmod t p x = Some t' -> ~ inside p q -> ~ inside q p ->
  FS.lookup t' q = FS.lookup t q.
Proof.
  unfold FS.chmod. intros H. destruct (FS.lookup t p) as [[|]|];
    try discriminate; now apply FSFacts.store_apart with (1 := H).
Qed.

(** Where [shutil.copy2] writes: at the destination or below it, or at a
    place that is a directory, where the write is refused. *)
Lemma copy_target src dst w :
  (forall c, inside (locate c dst)
               (locate c match node_at w dst with
                         | Some (Dir _) => path_join dst (basename src)
                         | _ => dst
                         end)) \/
  FS.isdir (fs w)
    (locate (cwd w) match node_at w dst with
                    | Some (Dir _) => path_join dst (basename src)
                    | _ => dst
                    end) = true.
Proof.
  unfold node_at. destruct (resolves w dst) eqn:Hr;
    [|left; intros c; apply inside_refl].
  assert (Hd : dst <> EmptyString).
  { intros ->. discriminate. }
  destruct (FS.lookup (fs w) (locate (cwd w) dst)) as [[d x|es]|] eqn:Hl;
    try (left; intros c; apply inside_refl).
  assert (Hj : forall c, locate c (path_join dst (basename src))
                         = resolve (locate c dst) [basename src])
    by (intros c; apply locate_join_atom;
        [assumption|apply basename_no_sep]).
  destruct (String.eqb_spec (basename src) "..") as [Hb|Hb].
  - right. rewrite Hj, Hb. cbn [resolve String.eqb Ascii.eqb Bool.eqb].
    unfold FS.isdir. destruct (lookup_removelast _ _ _ Hl) as [es' ->].
    reflexivity.
  - left. intros c. rewrite Hj. cbn [resolve].
    destruct (String.eqb _ EmptyString); [apply inside_refl|].
    destruct (String.eqb _ "."); [apply inside_refl|].
    destruct (String.eqb_spec (basename src) ".."); [contradiction|].
    now eexists.
Qed.

Lemma fs_call_beside path f p :
  (forall t l t' q, f t l = Some t' -> ~ inside l q -> ~ inside q l ->
                    FS.lookup t' q = FS.lookup t q) ->
  (forall c, inside (locate c path) (locate c p)) ->
  respects (beside path) (fs_call f p).
Proof.
  intros Hf Hin w. unfold respects_at, fs_call, fs_at.
  destruct (resolves w p); [|apply step_refl].
  destruct (f _ _) as [t'|] eqn:H; [|apply step_refl].
  split; [reflexivity|]. simpl. intros q Hq Hq'.
  apply (Hf _ _ _ _ H).
  - intros Hi. apply Hq. eapply inside_trans; [apply Hin|exact Hi].
  - intros Hi. destruct (Hin (cwd w)) as [r Hr]. rewrite Hr in Hi.
    apply inside_app_cases in Hi as [Hi|Hi]; auto.
Qed.

Lemma open_r_world E path w : snd (open_r E path w) = tick w.
Proof.
  unfold open_r, blocking. destruct (signals E (steps w) _) as [[|c]|];
    try reflexivity.
  now destruct (node_at (tick w) path) as [[d x|es]|].
Qed.

(** Opening a directory for writing is refused and changes nothing. *)
Lemma open_w_on_dir E path w :
  FS.isdir (fs w) (locate (cwd w) path) = true ->
  exists e, open_w E path w = (Raise e, tick w).
Proof.
  intros Hd. unfold open_w, blocking, fs_call, fs_at.
  destruct (signals E (steps w) _) as [[|c]|]; eauto.
  destruct (resolves _ path); [|eauto].
  unfold FS.write. cbn [fs cwd tick]. unfold FS.isdir in Hd.
  destruct (FS.lookup (fs w) (locate (cwd w) path)) as [[d x|es]|];
    try discriminate. eauto.
Qed.

(** Whether it returns or fails, [shutil.copy2] changes nothing beside its
    destination. *)
Lemma shutil_copy2_beside E src dst :
  respects (beside dst) (shutil_copy2 E src dst).
Proof.
  intros w. unfold respects_at, shutil_copy2. cbv zeta.
  destruct (copy_target src dst w) as [Hin|Hdir];
    destruct (loc_eqb _ _); try apply step_refl.
  - apply respects_bind;
      [typeclasses eauto|apply respects_open_r; typeclasses eauto|].
    intros content. apply respects_bind; [typeclasses eauto| |intros _].
    { apply respects_blocking; [typeclasses eauto|].
      apply fs_call_beside; [|exact Hin]. intros t l t' q.
      apply StageFacts.write_apart. }
    apply respects_bind; [typeclasses eauto| |intros _].
    { apply respects_blocking; [typeclasses eauto|].
      apply fs_call_beside; [|exact Hin]. intros t l t' q.
      apply StageFacts.append_apart. }
    apply respects_blocking; [typeclasses eauto|].
    apply fs_call_beside; [|exact Hin]. intros t l t' q. apply chmod_apart.
  - unfold bind. pose proof (open_r_world E src w) as Hr.
    destruct (open_r E src w) as [[content|e] w1]; simpl in Hr; subst w1;
      [|apply step_tick].
    destruct (open_w_on_dir E _ (tick w) Hdir) as [e ->]. simpl.
    eapply step_trans; apply step_tick.
Qed.

(** When [shutil.copy2] returns and its destination was not a directory,
    the destination is a regular file with the content and the mode of the
    source, which is a regular file, and no regular file elsewhere has
    changed. *)
Lemma shutil_copy2_ok E src dst w w1 :
  shutil_copy2 E src dst w = (Ok tt, w1) ->
  FS.isdir (fs w) (locate (cwd w) dst) = false ->
  cwd w1 = cwd w /\
  FS.file_at (fs w1) (locate (cwd w) dst)
  = FS.file_at (fs w) (locate (cwd w) src) /\
  FS.file_at (fs w) (locate (cwd w) src) <> None /\
  forall q, ~ inside (locate (cwd w) dst) q ->
            FS.file_at (fs w1) q = FS.file_at (fs w) q.
Proof.
  intros Hrun Hd. unfold shutil_copy2 in Hrun. cbv zeta in Hrun.
  assert (Ht : match node_at w dst with
               | Some (Dir _) => path_join dst (basename src)
               | _ => dst
               end = dst).
  { unfold node_at, FS.isdir in *.
    destruct (resolves w dst); [|reflexivity].
    now destruct (FS.lookup (fs w) (locate (cwd w) dst)) as [[|]|]. }
  rewrite Ht in Hrun. clear Ht.
  destruct (loc_eqb _ _) eqn:Hne; [discriminate|]. unfold bind in Hrun.
  destruct (open_r E src w) as [[[data x]|e] w0] eqn:H0; [|discriminate].
  apply blocking_ok in H0 as [_ H0]. unfold node_at in H0.
  destruct (resolves _ src); [|discriminate].
  cbn [fs cwd tick] in H0.
  destruct (FS.lookup (fs w) (locate (cwd w) src)) as [[d0 x0|es]|] eqn:Hs;
    try discriminate.
  injection H0 as -> -> <-. cbn [fst snd] in Hrun.
  destruct (open_w E dst (tick w)) as [[[]|e] w2] eqn:H2; [|discriminate].
  apply blocking_ok in H2 as [_ H2]. apply fs_call_ok in H2 as (t2 & Hw & ->).
  destruct (file_write E dst data _) as [[[]|e] w3] eqn:H3; [|discriminate].
  apply blocking_ok in H3 as [_ H3]. apply fs_call_ok in H3 as (t3 & Ha & ->).
  apply blocking_ok in Hrun as [_ Hrun].
  apply fs_call_ok in Hrun as (t4 & Hc & ->).
  cbn [fs cwd tick set_fs] in *.
  pose proof Hw as Hw'. apply write_sound in Hw' as [x1 Hl2].
  pose proof (append_sound _ _ _ _ _ _ Hl2 Ha) as Hl3. cbn in Hl3.
  unfold FS.chmod in Hc. rewrite Hl3 in Hc.
  split; [reflexivity|]. unfold FS.file_at at 1 2 3. rewrite Hs.
  split; [now rewrite (FSFacts.store_sound _ _ _ _ Hc)|].
  split; [discriminate|]. intros q Hq.
  rewrite (FSFacts.store_frame _ _ _ _ q Hc Hq).
  rewrite (FSFacts.append_frame _ _ _ _ q Ha Hq).
  exact (FSFacts.write_frame _ _ _ _ q Hw Hq).
Qed.

Lemma silent_of A (m : M A) w r w' :
  respects silent m -> m w = (r, w') -> silent w w'.
Proof. intros Hm Hw. specialize (Hm w). unfold respects_at in Hm. now rewrite Hw in Hm. Qed.

(** C7, as the code has it.  When the copy to the staging path fails,
    nothing beside the staging path has changed, so the extraction directory
    and the archive are not removed; the staging path itself can have been
    created or truncated by then.  When the copy or a later deletion fails,
    the exception leaves [stage_and_launch]: nothing is printed, no process
    is started, and the guard turns an error into exit status 1. *)
Theorem stage_failure_aborts E config exe_path w e wf :
  stage_fails E config exe_path w e wf ->
  stage_and_launch E config exe_path w = (Raise e, wf) /\
  procs wf = procs w /\ stdout wf = stdout w /\
  (shutil_copy2 E exe_path temp_exe w = (Raise e, wf) ->
   FS.lookup (fs wf) (extracted_loc w) = FS.lookup (fs w) (extracted_loc w) /\
   FS.lookup (fs wf) (archive_loc w) = FS.lookup (fs w) (archive_loc w) /\
   beside temp_exe w wf) /\
  (forall c, e = Exception c ->
             fst (guard (stage_and_launch E config exe_path) w) = 1%Z).
Proof.
  intros Hf.
  assert (Hrun : stage_and_launch E config exe_path w = (Raise e, wf)).
  { unfold stage_and_launch, bind.
    destruct Hf as [H1|[(w1 & H1 & H2)|(w1 & w2 & H1 & H2 & H3)]].
    - now rewrite H1.
    - now rewrite H1, H2.
    - now rewrite H1, H2, H3. }
  split; [exact Hrun|].
  assert (Hs : silent w wf).
  { destruct Hf as [H1|[(w1 & H1 & H2)|(w1 & w2 & H1 & H2 & H3)]].
    - exact (silent_of _ _ _ _ _ (shutil_copy2_silent E _ _) H1).
    - eapply step_trans.
      + exact (silent_of _ _ _ _ _ (shutil_copy2_silent E _ _) H1).
      + exact (silent_of _ _ _ _ _ (shutil_rmtree_silent E _) H2).
    - eapply step_trans; [|eapply step_trans].
      + exact (silent_of _ _ _ _ _ (shutil_copy2_silent E _ _) H1).
      + exact (silent_of _ _ _ _ _ (shutil_rmtree_silent E _) H2).
      + exact (silent_of _ _ _ _ _ (os_remove_silent E _) H3). }
  destruct Hs as (Ho & Hp & _).
  split; [exact Hp|]. split; [exact Ho|]. split.
  - intros Hc. pose proof (shutil_copy2_beside E exe_path temp_exe w) as Hb.
    unfold respects_at in Hb. rewrite Hc in Hb. cbn [snd] in Hb.
    pose proof Hb as [_ Hframe].
    assert (Ha : forall n, n <> temp_exe ->
              FS.lookup (fs wf) (cwd w ++ [n])%list
              = FS.lookup (fs w) (cwd w ++ [n])%list).
    { intros n Hn. unfold temp_exe in Hn.
      apply Hframe; apply (sibling_apart (cwd w)); congruence. }
    split; [apply Ha; discriminate|]. split; [apply Ha; discriminate|].
    exact Hb.
  - intros c ->. unfold guard. now rewrite Hrun.
Qed.

(** Witness for C7: the disk is full when the content of the payload is
    written to the staging path. *)
Lemma stage_failure_aborts_witness :
  stage_fails Scenario.copy_denied Scenario.config Scenario.setup_exe
    (Scenario.unpacked Scenario.copy_denied) (Exception OSError)
    (snd (stage_and_launch Scenario.copy_denied Scenario.config
            Scenario.setup_exe (Scenario.unpacked Scenario.copy_denied))) /\
  FS.lookup
    (fs (snd (stage_and_launch Scenario.copy_denied Scenario.config
                Scenario.setup_exe (Scenario.unpacked Scenario.copy_denied))))
    (extracted_loc (Scenario.unpacked Scenario.copy_denied))
  = FS.lookup (fs (Scenario.unpacked Scenario.copy_denied))
      (extracted_loc (Scenario.unpacked Scenario.copy_denied)) /\
  fst (guard (stage_and_launch Scenario.copy_denied Scenario.config
                Scenario.setup_exe)
         (Scenario.unpacked Scenario.copy_denied)) = 1%Z.
Proof.
  assert (Hc : shutil_copy2 Scenario.copy_denied Scenario.setup_exe temp_exe
                 (Scenario.unpacked Scenario.copy_denied)
               = (Raise (Exception OSError),
                  snd (stage_and_launch Scenario.copy_denied Scenario.config
                         Scenario.setup_exe
                         (Scenario.unpacked Scenario.copy_denied))))
    by (vm_compute; reflexivity).
  assert (H : stage_fails Scenario.copy_denied Scenario.config
                Scenario.setup_exe
                (Scenario.unpacked Scenario.copy_denied) (Exception OSError)
                (snd (stage_and_launch Scenario.copy_denied Scenario.config
                        Scenario.setup_exe
                        (Scenario.unpacked Scenario.copy_denied))))
    by (left; exact Hc).
  split; [exact H|].
  destruct (stage_failure_aborts _ _ _ _ _ _ H) as (_ & _ & _ & Hd & Hg).
  split; [exact (proj1 (Hd Hc))|exact (Hg OSError eq_refl)].
Defined.

(** The frame of C7 is tight: the failing copy of the witness has created
    the staging path, and left it empty. *)
Lemma failed_copy_leaves_stub :
  FS.file_at (fs (Scenario.unpacked Scenario.copy_denied))
    (locate Scenario.home temp_exe) = None /\
  FS.file_at (fs (Scenario.finish Scenario.copy_denied))
    (locate Scenario.home temp_exe) = Some (EmptyString, false) /\
  FS.isdir (fs (Scenario.finish Scenario.copy_denied))
    (locate Scenario.home "extracted") = true /\
  FS.isfile (fs (Scenario.finish Scenario.copy_denied))
    (locate Scenario.home "downloaded.zip") = true /\
  procs (Scenario.finish Scenario.copy_denied) = [] /\
  Scenario.status Scenario.copy_denied = 1%Z.
Proof. repeat (split; [vm_compute; reflexivity|]). vm_compute. reflexivity. Qed.

(** Counterexample to C7 as stated: the copy goes through, the removal of
    the extraction directory fails, and the run does not continue: the
    staged payload is on disk but is not launched, the error is fatal and
    the exit status is 1. *)
Lemma cleanup_failure_is_fatal :
  Scenario.status Scenario.rmtree_denied = 1%Z /\
  FS.file_at (fs (Scenario.finish Scenario.rmtree_denied))
    (locate Scenario.home temp_exe) = Some ("MZ", false) /\
  procs (Scenario.finish Scenario.rmtree_denied) = [] /\
  stdout (Scenario.finish Scenario.rmtree_denied)
  = [Banner; Downloading; Fatal OSError].
Proof. repeat split. Qed.

(** ** No payload *)




Lemma walk_files_app a b :
  walk_files (a ++ b) = (walk_files a ++ walk_files b)%list.
Proof. apply flat_map_app. Qed.
















(** Both conditions of C8 are needed.  An archive whose only member is
    named [setup.exe/.] has no name that ends in [.exe], yet the member is
    extracted as [setup.exe], staged and launched; and with the archive that
    holds [readme.txt] only, a file [old.exe] left in the extraction
    directory is staged and launched. *)
Lemma unnamed_payloads_are_staged :
  Str.endswith "setup.exe/." ".exe" = false /\
  exe_member {| zip_filename := "setup.exe/."; zip_data := "MZ" |} = true /\
  stdout (snd (setup Scenario.dotted Scenario.config Scenario.start))
  = [Downloading; Installing] /\
  procs (snd (setup Scenario.dotted Scenario.config Scenario.start))
  = [ {| sp_argv := ["wine"; temp_exe]; sp_shell := false;
         sp_no_window := false |} ] /\
  stdout (snd (setup Scenario.no_payload Scenario.config Scenario.leftover))
  = [Downloading; Installing] /\
  procs (snd (setup Scenario.no_payload Scenario.config Scenario.leftover))
  = [ {| sp_argv := ["wine"; temp_exe]; sp_shell := false;
         sp_no_window := false |} ].
Proof. repeat (split; [vm_compute; reflexivity|]). vm_compute. reflexivity. Qed.


(** ** The launch and the deferred deletion *)

Lemma batch_commands :
  map Batch.parse (Str.split "010"%char (batch_content temp_exe))
  = [Batch.EchoOff; Batch.Start temp_exe; Batch.Wait 3; Batch.Del temp_exe;
     Batch.Del "%~f0"].
Proof. vm_compute. reflexivity. Qed.

Lemma loc_eqb_refl p : loc_eqb p p = true.
Proof.
  unfold loc_eqb. assert (H : insideb p p = true)
    by (apply insideb_spec, inside_refl). now rewrite H.
Qed.

Lemma loc_eqb_sibling (d : loc) (a b : string) :
  a <> b -> loc_eqb (d ++ [a])%list (d ++ [b])%list = false.
Proof.
  intros Hab. unfold loc_eqb.
  destruct (insideb (d ++ [a])%list (d ++ [b])%list) eqn:H; [|reflexivity].
  apply insideb_spec in H. now apply sibling_apart in H.
Qed.

Lemma remove_file t p d x :
  FS.lookup t p = Some (File d x) -> p <> [] ->
  exists t', FS.remove t p = Some t'.
Proof.
  intros Hl Hp. unfold FS.remove. rewrite Hl.
  destruct (FS.store t p None) as [t'|] eqn:Hs; [eauto|].
  exfalso. exact (StageFacts.store_total t p _ None Hl Hp Hs).
Qed.

(** What the batch file of [run_exe] does when the command interpreter runs
    it in [dir], where the staged executable and the batch file are: at
    second 0 the staged executable is started; at second 3 its deletion is
    tried, and goes through exactly when the payload has ended by then; then
    the batch file deletes itself. *)
Lemma batch_run_spec life dir t d x c y :
  FS.lookup t (dir ++ [temp_exe])%list = Some (File d x) ->
  FS.lookup t (dir ++ ["cleanup.bat"])%list = Some (File c y) ->
  Batch.log (Batch.run life dir "cleanup.bat" (batch_content temp_exe) t)
  = [ (0, Batch.Started (dir ++ [temp_exe])%list);
      (3, if (life <=? 3)%nat then Batch.Deleted (dir ++ [temp_exe])%list
          else Batch.InUse (dir ++ [temp_exe])%list);
      (3, Batch.Deleted (dir ++ ["cleanup.bat"])%list) ] /\
  FS.file_at
    (Batch.disk (Batch.run life dir "cleanup.bat" (batch_content temp_exe) t))
    (dir ++ ["cleanup.bat"])%list = None /\
  FS.file_at
    (Batch.disk (Batch.run life dir "cleanup.bat" (batch_content temp_exe) t))
    (dir ++ [temp_exe])%list
  = if (life <=? 3)%nat then None else Some (d, x).
Proof.
  intros Hs Hb. unfold Batch.run. rewrite batch_commands.
  assert (Hne : forall n : string, (dir ++ [n])%list <> [])
    by (intros n; now destruct dir).
  cbn [fold_left].
  match goal with
  | |- context [Batch.step life dir "cleanup.bat" ?h Batch.EchoOff] =>
      change (Batch.step life dir "cleanup.bat" h Batch.EchoOff) with h
  end.
  (* start *)
  match goal with
  | |- context [Batch.step life dir "cleanup.bat" ?h (Batch.Start temp_exe)] =>
      assert (E1 : Batch.step life dir "cleanup.bat" h (Batch.Start temp_exe)
                   = {| Batch.disk := t; Batch.elapsed := 0;
                        Batch.running := [((dir ++ [temp_exe])%list, life)];
                        Batch.log :=
                          [(0, Batch.Started (dir ++ [temp_exe])%list)] |})
  end.
  { unfold Batch.step.
    change (locate dir temp_exe) with (dir ++ [temp_exe])%list.
    unfold FS.isfile. cbn [Batch.disk]. rewrite Hs. reflexivity. }
  rewrite E1. clear E1.
  (* timeout *)
  match goal with
  | |- context [Batch.step life dir "cleanup.bat" ?h (Batch.Wait 3)] =>
      change (Batch.step life dir "cleanup.bat" h (Batch.Wait 3))
        with {| Batch.disk := t; Batch.elapsed := 3;
                Batch.running := [((dir ++ [temp_exe])%list, life)];
                Batch.log := [(0, Batch.Started (dir ++ [temp_exe])%list)] |}
  end.
  (* del staged *)
  match goal with
  | |- context [Batch.step life dir "cleanup.bat" ?h (Batch.Del temp_exe)] =>
      assert (E2 : Batch.in_use h (dir ++ [temp_exe])%list
                   = negb (life <=? 3)%nat)
  end.
  { unfold Batch.in_use. cbn [Batch.running Batch.elapsed existsb fst snd].
    now rewrite loc_eqb_refl, Nat.ltb_antisym, orb_false_r. }
  match goal with
  | |- context [Batch.step life dir "cleanup.bat" ?h (Batch.Del "%~f0")] =>
      set (h3 := h)
  end.
  assert (E3 : exists t3,
             h3 = {| Batch.disk := t3; Batch.elapsed := 3;
                     Batch.running := [((dir ++ [temp_exe])%list, life)];
                     Batch.log :=
                       [ (0, Batch.Started (dir ++ [temp_exe])%list);
                         (3, if (life <=? 3)%nat
                             then Batch.Deleted (dir ++ [temp_exe])%list
                             else Batch.InUse (dir ++ [temp_exe])%list) ] |} /\
             FS.lookup t3 (dir ++ ["cleanup.bat"])%list = Some (File c y) /\
             FS.file_at t3 (dir ++ [temp_exe])%list
             = if (life <=? 3)%nat then None else Some (d, x)).
  { unfold h3, Batch.step.
    change (String.eqb temp_exe "%~f0") with false. cbv iota.
    change (locate dir temp_exe) with (dir ++ [temp_exe])%list.
    rewrite E2. destruct (life <=? 3)%nat; cbn [negb].
    - cbn [Batch.disk]. destruct (remove_file t _ d x Hs (Hne _)) as [t1 Hr1].
      rewrite Hr1. exists t1. split; [reflexivity|]. split.
      + rewrite (StageFacts.remove_apart _ _ _ _ Hr1); [exact Hb|..];
          apply sibling_apart; discriminate.
      + unfold FS.file_at. now rewrite (StageFacts.remove_gone _ _ _ Hr1).
    - exists t. split; [reflexivity|]. split; [exact Hb|].
      unfold FS.file_at. now rewrite Hs. }
  destruct E3 as (t3 & -> & Hb3 & Hs3). clear E2.
  (* del self *)
  unfold Batch.step.
  change (String.eqb "%~f0" "%~f0") with true. cbv iota.
  change (locate dir "cleanup.bat") with (dir ++ ["cleanup.bat"])%list.
  unfold Batch.in_use. cbn [Batch.running Batch.elapsed existsb fst snd].
  rewrite (loc_eqb_sibling dir temp_exe "cleanup.bat") by discriminate.
  cbn [andb orb Batch.disk].
  destruct (remove_file t3 _ c y Hb3 (Hne _)) as [t4 Hr4]. rewrite Hr4.
  cbn [Batch.record Batch.disk Batch.log Batch.elapsed app].
  split; [reflexivity|]. split.
  - unfold FS.file_at. now rewrite (StageFacts.remove_gone _ _ _ Hr4).
  - rewrite (remove_frame _ _ _ _ Hr4); [exact Hs3|].
    apply sibling_apart; discriminate.
Qed.

(** C4, as the code has it.  On Windows ([os.name] is [nt]) every launch of
    a staged executable that goes through has written the batch file, whose
    commands are in this order: start the staged executable, wait three
    seconds, delete the staged executable, delete the batch file; and has
    started it hidden through the shell, without waiting for it.  Run by the
    command interpreter, that helper starts the staged executable at second
    0 and tries to delete it at second 3: the deletion goes through when the
    payload has ended by then, and is refused while the payload runs, in
    which case the staged executable stays on disk.  The batch file is
    deleted in both cases.  On the other platforms [run_exe] only starts the
    payload under [wine]. *)
Theorem nt_helper_deletes E life w w' :
  os_name E = Nt ->
  FS.isfile (fs w) (locate (cwd w) temp_exe) = true ->
  run_exe E temp_exe w = (Ok tt, w') ->
  procs w' = (procs w ++ [helper])%list /\
  (exists x, FS.file_at (fs w') (locate (cwd w) "cleanup.bat")
             = Some (batch_content temp_exe, x)) /\
  map Batch.parse (Str.split "010"%char (batch_content temp_exe))
  = [Batch.EchoOff; Batch.Start temp_exe; Batch.Wait 3; Batch.Del temp_exe;
     Batch.Del "%~f0"] /\
  exists h,
    cleanup_of life w' helper = Some h /\
    Batch.log h
    = [ (0, Batch.Started (locate (cwd w) temp_exe));
        (3, if (life <=? 3)%nat
            then Batch.Deleted (locate (cwd w) temp_exe)
            else Batch.InUse (locate (cwd w) temp_exe));
        (3, Batch.Deleted (locate (cwd w) "cleanup.bat")) ] /\
    FS.file_at (Batch.disk h) (locate (cwd w) "cleanup.bat") = None /\
    FS.file_at (Batch.disk h) (locate (cwd w) temp_exe)
    = if (life <=? 3)%nat then None
      else FS.file_at (fs w) (locate (cwd w) temp_exe).
Proof.
  intros Hos Hexe Hrun. unfold run_exe in Hrun. rewrite Hos in Hrun.
  unfold bind in Hrun.
  destruct (open_w E "cleanup.bat" w) as [[[]|e] w1] eqn:H1; [|discriminate].
  destruct (file_write E "cleanup.bat" (batch_content temp_exe) w1)
    as [[[]|e] w2] eqn:H2; [|discriminate].
  apply blocking_ok in H1 as [_ H1]. apply fs_call_ok in H1 as (t1 & Hw & ->).
  apply blocking_ok in H2 as [_ H2]. apply fs_call_ok in H2 as (t2 & Ha & ->).
  apply blocking_ok in Hrun as [_ Hrun]. injection Hrun as <-.
  cbn [fs cwd tick set_fs add_proc procs] in *.
  pose proof Hw as Hw'. apply write_sound in Hw' as [y Hl1].
  pose proof (append_sound _ _ _ _ _ _ Hl1 Ha) as Hl2.
  cbn [String.append] in Hl2. unfold FS.isfile in Hexe.
  destruct (FS.lookup (fs w) (locate (cwd w) temp_exe)) as [[d x|es]|] eqn:Hs;
    try discriminate.
  assert (Hs2 : FS.lookup t2 (locate (cwd w) temp_exe) = Some (File d x)).
  { rewrite (StageFacts.append_apart _ _ _ _ _ Ha),
      (StageFacts.write_apart _ _ _ _ _ Hw); [exact Hs|..];
      apply (sibling_apart (cwd w)); discriminate. }
  split; [reflexivity|]. split; [exists y; unfold FS.file_at; now rewrite Hl2|].
  split; [exact batch_commands|].
  destruct (batch_run_spec life (cwd w) t2 d x _ y Hs2 Hl2) as (Hlog & Hb & He).
  eexists. split; [|split; [exact Hlog|split; [exact Hb|]]].
  - unfold cleanup_of, FS.file_at.
    cbn [helper sp_shell sp_argv fs cwd add_proc tick set_fs].
    now rewrite Hl2.
  - unfold FS.file_at at 2. rewrite Hs. exact He.
Qed.

(** Witness for C4: the staged payload on Windows, ending within a
    second. *)
Lemma nt_helper_deletes_witness :
  os_name Scenario.nt_payload = Nt /\
  FS.file_at (fs (Scenario.staged Scenario.nt_payload))
    (locate Scenario.home temp_exe) = Some ("MZ", false) /\
  deletes_staged 1
    (snd (run_exe Scenario.nt_payload temp_exe
            (Scenario.staged Scenario.nt_payload)))
    helper.
Proof.
  assert (H1 : os_name Scenario.nt_payload = Nt) by reflexivity.
  assert (H2 : FS.isfile (fs (Scenario.staged Scenario.nt_payload))
                 (locate (cwd (Scenario.staged Scenario.nt_payload)) temp_exe)
               = true) by (vm_compute; reflexivity).
  assert (H3 : run_exe Scenario.nt_payload temp_exe
                 (Scenario.staged Scenario.nt_payload)
               = (Ok tt, snd (run_exe Scenario.nt_payload temp_exe
                                (Scenario.staged Scenario.nt_payload))))
    by (vm_compute; reflexivity).
  split; [exact H1|]. split; [vm_compute; reflexivity|].
  destruct (nt_helper_deletes Scenario.nt_payload 1 _ _ H1 H2 H3)
    as (_ & _ & _ & h & Hc & Hlog & _).
  exists h, 3. split; [exact Hc|]. rewrite Hlog. right. left. reflexivity.
Defined.

(** On Windows too the staged executable can stay: a payload that runs for
    a minute is still running when the helper tries to delete it. *)
Lemma running_payload_is_not_deleted :
  os_name Scenario.nt_payload = Nt /\
  option_map Batch.log
    (cleanup_of 60 (Scenario.finish Scenario.nt_payload) helper)
  = Some [ (0, Batch.Started (locate Scenario.home temp_exe));
           (3, Batch.InUse (locate Scenario.home temp_exe));
           (3, Batch.Deleted (locate Scenario.home "cleanup.bat")) ] /\
  option_map (fun h => FS.file_at (Batch.disk h) (locate Scenario.home temp_exe))
    (cleanup_of 60 (Scenario.finish Scenario.nt_payload) helper)
  = Some (Some ("MZ", false)).
Proof. repeat (split; [vm_compute; reflexivity|]). vm_compute. reflexivity. Qed.

(** Counterexample to C4 as stated: off Windows the launch goes through,
    the only process started is the payload under [wine], no started
    process is a cleanup step, and the staged executable stays on disk. *)
Lemma posix_launch_keeps_staged :
  os_name Scenario.posix_payload = Posix /\
  Scenario.status Scenario.posix_payload = 0%Z /\
  procs (Scenario.finish Scenario.posix_payload)
  = [ {| sp_argv := ["wine"; temp_exe]; sp_shell := false;
         sp_no_window := false |} ] /\
  FS.file_at (fs (Scenario.finish Scenario.posix_payload))
    (locate Scenario.home temp_exe) = Some ("MZ", false) /\
  forall life p, In p (procs (Scenario.finish Scenario.posix_payload)) ->
                 ~ deletes_staged life (Scenario.finish Scenario.posix_payload) p.
Proof.
  repeat (split; [vm_compute; reflexivity|]).
  intros life p Hp (h & k & Hc & _).
  assert (Hp' : p = {| sp_argv := ["wine"; temp_exe]; sp_shell := false;
                       sp_no_window := false |}).
  { vm_compute in Hp. destruct Hp as [Hp|[]]. now rewrite <- Hp. }
  subst p. vm_compute in Hc. discriminate.
Qed.

(** ** Exit status *)

Lemma never_ret A (a : A) : never_exits (ret a).
Proof. intros w. exact I. Qed.

Lemma never_bind A B (m : M A) (k : A -> M B) :
  never_exits m -> (forall a, never_exits (k a)) -> never_exits (bind m k).
Proof.
  intros Hm Hk w. unfold bind. specialize (Hm w).
  destruct (m w) as [[a|e] w1]; simpl in *; [apply Hk|exact Hm].
Qed.

Lemma never_blocking E A o (body : M A) :
  never_exits body -> never_exits (blocking E o body).
Proof.
  intros Hb w. unfold blocking.
  destruct (signals E (steps w) o) as [[|c]|]; simpl; auto. apply Hb.
Qed.

Lemma never_if A (b : bool) (m1 m2 : M A) :
  never_exits m1 -> never_exits m2 -> never_exits (if b then m1 else m2).
Proof. now destruct b. Qed.

Lemma never_print l : never_exits (print l).
Proof. intros w. exact I. Qed.

Lemma never_fs_at f p : never_exits (fs_at f p).
Proof. intros w. unfold fs_at. now destruct (f (fs w) p). Qed.

Lemma never_fs_call f path : never_exits (fs_call f path).
Proof.
  intros w. unfold fs_call. destruct (resolves w path); [|exact I].
  apply (never_fs_at f (locate (cwd w) path) w).
Qed.

Lemma never_exception A c : never_exits (@raise A (Exception c)).
Proof. intros w. exact I. Qed.

Create HintDb never.
#[local] Hint Resolve never_ret never_print never_fs_at never_fs_call
  never_exception : never.

Ltac never_step :=
  first
    [ solve [auto with never]
    | apply never_bind; [ | intros ?]
    | apply never_blocking
    | apply never_if
    | match goal with
      | |- never_exits (match ?x with _ => _ end) => destruct x
      end
    | progress cbv zeta ].

Ltac never_auto := cbv zeta; repeat never_step.

Ltac never_leaf :=
  let w := fresh "w" in
  intros w; simpl;
  repeat match goal with
         | |- context [match ?x with _ => _ end] => destruct x; simpl
         end;
  exact I.

Lemma never_random_choice E o : never_exits (random_choice E o).
Proof. never_leaf. Qed.
Lemma never_random_uniform E lo hi : never_exits (random_uniform E lo hi).
Proof. never_leaf. Qed.
Lemma never_time_time E : never_exits (time_time E).
Proof. never_leaf. Qed.
Lemma never_generate_hash E n : never_exits (generate_hash E n).
Proof. never_leaf. Qed.
Lemma never_NFTConfig_init E : never_exits (NFTConfig_init E).
Proof. never_leaf. Qed.
Lemma never_find_exe d : never_exits (find_exe d).
Proof. intros w. exact I. Qed.
Lemma never_sleep E ms : never_exits (sleep E ms).
Proof. unfold sleep. never_auto. Qed.

#[local] Hint Resolve never_random_choice never_random_uniform never_time_time
  never_generate_hash never_NFTConfig_init never_find_exe never_sleep : never.

Lemma never_open_w E p : never_exits (open_w E p).
Proof. unfold open_w. never_auto. Qed.
Lemma never_file_write E p d : never_exits (file_write E p d).
Proof. unfold file_write. never_auto. Qed.
Lemma never_os_makedirs E p : never_exits (os_makedirs E p).
Proof.
  unfold os_makedirs. never_auto. intros w.
  destruct (String.eqb p EmptyString); [exact I|apply never_fs_at].
Qed.
Lemma never_open_r E p : never_exits (open_r E p).
Proof.
  unfold open_r. never_auto. intros w.
  now destruct (node_at w p) as [[d x|es]|].
Qed.
Lemma never_copystat E s d m : never_exits (copystat E s d m).
Proof. unfold copystat. never_auto. Qed.
Lemma never_shutil_copy2 E s d : never_exits (shutil_copy2 E s d).
Proof.
  intros w. unfold shutil_copy2. cbv zeta.
  destruct (loc_eqb _ _); [exact I|].
  apply never_bind; [apply never_open_r|intros content].
  apply never_bind; [apply never_open_w|intros _].
  apply never_bind; [apply never_file_write|intros _]. apply never_copystat.
Qed.
Lemma never_shutil_rmtree E p : never_exits (shutil_rmtree E p).
Proof. unfold shutil_rmtree. never_auto. Qed.
Lemma never_os_remove E p : never_exits (os_remove E p).
Proof. unfold os_remove. never_auto. Qed.
Lemma never_Popen E a s h : never_exits (Popen E a s h).
Proof. unfold Popen. never_auto. intros w. exact I. Qed.

#[local] Hint Resolve never_open_w never_file_write never_os_makedirs
  never_shutil_copy2 never_shutil_rmtree never_os_remove never_Popen : never.

Lemma never_requests_get E r : never_exits (requests_get E r).
Proof.
  unfold requests_get. never_auto. intros w. now destruct (http E r).
Qed.
Lemma never_raise_for_status s : never_exits (raise_for_status s).
Proof. unfold raise_for_status. never_auto. Qed.
Lemma never_write_chunks E u p chunks : never_exits (write_chunks E u p chunks).
Proof. induction chunks; simpl; never_auto. Qed.

#[local] Hint Resolve never_requests_get never_raise_for_status
  never_write_chunks : never.

Lemma never_download_zip E u p : never_exits (download_zip E u p).
Proof. unfold download_zip. never_auto. Qed.

Lemma never_ZipFile E p : never_exits (ZipFile E p).
Proof.
  unfold ZipFile. never_auto. intros w.
  destruct (node_at w p) as [[d x|es]|]; try exact I.
  now destruct (zip_members E d).
Qed.

Lemma never_extract_member E path m : never_exits (extract_member E path m).
Proof.
  unfold extract_member. apply never_blocking. intros w. cbv beta zeta.
  apply (never_bind _ _ _ _); [now destruct (FS.exists_ _ _); auto with never|].
  intros _. destruct (is_dir m); [|apply never_fs_at].
  intros w1. cbv beta. destruct (FS.isdir _ _); [exact I|apply never_fs_at].
Qed.

#[local] Hint Resolve never_download_zip never_ZipFile never_extract_member
  : never.

Lemma never_extractall E members path : never_exits (extractall E members path).
Proof. induction members; simpl; never_auto. Qed.

#[local] Hint Resolve never_extractall : never.

Lemma never_extract_zip E z p : never_exits (extract_zip E z p).
Proof. unfold extract_zip. never_auto. Qed.

Lemma never_run_exe E exe : never_exits (run_exe E exe).
Proof. unfold run_exe. never_auto. Qed.

#[local] Hint Resolve never_extract_zip never_run_exe : never.

Lemma never_stage_and_launch E config exe :
  never_exits (stage_and_launch E config exe).
Proof. unfold stage_and_launch. never_auto. Qed.

#[local] Hint Resolve never_stage_and_launch : never.

Lemma never_setup E config : never_exits (setup E config).
Proof. unfold setup. never_auto. Qed.

Lemma never_show_config w c : never_exits (show_config w c).
Proof. unfold show_config. never_auto. Qed.
Lemma never_show_items nfts : never_exits (show_items nfts).
Proof. induction nfts; simpl; never_auto. Qed.

#[local] Hint Resolve never_setup never_show_config never_show_items : never.

Lemma never_show_success nfts : never_exits (show_success nfts).
Proof. unfold show_success. never_auto. Qed.
Lemma never_show_failure t d : never_exits (show_failure t d).
Proof. unfold show_failure. never_auto. Qed.
Lemma never_choose_traits E ts : never_exits (choose_traits E ts).
Proof. induction ts as [|[t o] ts IH]; simpl; never_auto. Qed.

#[local] Hint Resolve never_show_success never_show_failure
  never_choose_traits : never.

Lemma never_analyze E md : never_exits (analyze_nft_opportunity E md).
Proof. unfold analyze_nft_opportunity. never_auto. Qed.

#[local] Hint Resolve never_analyze : never.

Lemma never_generate E config n nfts : never_exits (generate E config n nfts).
Proof.
  revert nfts. induction n as [|n IH]; intros nfts; simpl.
  - never_auto.
  - unfold generate_nft_metadata. never_auto.
Qed.

#[local] Hint Resolve never_generate : never.

Lemma never_execute E config num : never_exits (execute E config num).
Proof. unfold execute. never_auto. Qed.
Lemma never_simulate_minting E : never_exits (simulate_minting E).
Proof. unfold simulate_minting. never_auto. Qed.

#[local] Hint Resolve never_execute never_simulate_minting : never.

Lemma exits_bind A B (m : M A) (k : A -> M B) :
  never_exits m -> (forall a, exits_zero (k a)) -> exits_zero (bind m k).
Proof.
  intros Hm Hk w. unfold bind. specialize (Hm w).
  destruct (m w) as [[a|[|code|c]] w1]; simpl in *;
    [apply Hk|exact I|contradiction|exact I].
Qed.

Lemma exits_sys_exit_0 A : exits_zero (@sys_exit A 0).
Proof. intros w. reflexivity. Qed.

Lemma mint_exits_zero E config args : exits_zero (mint E config args).
Proof.
  unfold mint. cbv zeta. apply exits_bind; [never_auto|]. intros _.
  apply exits_bind; [never_auto|]. intros [[success status] result].
  apply exits_bind; [never_auto|]. intros _. apply exits_sys_exit_0.
Qed.

Lemma main_exits_zero E args :
  command_line E = Parsed args -> exits_zero (main E).
Proof.
  intros Hcl. unfold main.
  apply exits_bind; [never_auto|]. intros config.
  apply exits_bind; [unfold parse_args; rewrite Hcl; never_auto|]. intros a.
  apply exits_bind; [unfold show_header; never_auto|]. intros _. cbv zeta.
  apply exits_bind; [never_auto|]. intros _. apply mint_exits_zero.
Qed.

Section Undisturbed.

Variable E : env.
Hypothesis calm : forall k o, signals E k o = None.

Lemma completes_ret A (a : A) : completes (ret a).
Proof. intros w. now exists a, w. Qed.

Lemma completes_bind A B (m : M A) (k : A -> M B) :
  completes m -> (forall a, completes (k a)) -> completes (bind m k).
Proof.
  intros Hm Hk w. unfold bind. destruct (Hm w) as (a & w1 & ->). apply Hk.
Qed.

Lemma completes_blocking A o (body : M A) :
  completes body -> completes (blocking E o body).
Proof. intros Hb w. unfold blocking. rewrite calm. apply Hb. Qed.

Lemma completes_if A (b : bool) (m1 m2 : M A) :
  completes m1 -> completes m2 -> completes (if b then m1 else m2).
Proof. now destruct b. Qed.

Lemma completes_print l : completes (print l).
Proof. intros w. now eexists _, _. Qed.

Lemma completes_random_choice o : completes (random_choice E o).
Proof. intros w. now eexists _, _. Qed.

Lemma completes_random_uniform lo hi : completes (random_uniform E lo hi).
Proof. intros w. now eexists _, _. Qed.

Lemma completes_time_time : completes (time_time E).
Proof. intros w. now eexists _, _. Qed.

Lemma completes_generate_hash n : completes (generate_hash E n).
Proof. intros w. now eexists _, _. Qed.

Ltac completes_step :=
  first
    [ apply completes_ret | apply completes_print
    | apply completes_random_choice | apply completes_random_uniform
    | apply completes_time_time | apply completes_generate_hash
    | assumption
    | apply completes_bind; [ | intros ?]
    | apply completes_blocking
    | apply completes_if
    | match goal with
      | |- completes (match ?x with _ => _ end) => destruct x
      end
    | progress cbv zeta ].

Lemma completes_sleep ms : completes (sleep E ms).
Proof. unfold sleep. repeat completes_step. Qed.

Lemma completes_show_config wallet c : completes (show_config wallet c).
Proof. unfold show_config. repeat completes_step. Qed.

Lemma completes_show_items nfts : completes (show_items nfts).
Proof. induction nfts; simpl; repeat completes_step. Qed.

Lemma completes_show_success nfts : completes (show_success nfts).
Proof.
  unfold show_success. pose proof (completes_show_items nfts).
  repeat completes_step.
Qed.

Lemma completes_show_failure t d : completes (show_failure t d).
Proof. unfold show_failure. repeat completes_step. Qed.

Lemma completes_choose_traits ts : completes (choose_traits E ts).
Proof. induction ts as [|[t o] ts IH]; simpl; repeat completes_step. Qed.

Lemma completes_analyze md : completes (analyze_nft_opportunity E md).
Proof. unfold analyze_nft_opportunity. repeat completes_step. Qed.

Lemma completes_generate config n nfts : completes (generate E config n nfts).
Proof.
  revert nfts. induction n as [|n IH]; intros nfts; simpl.
  - apply completes_ret.
  - unfold generate_nft_metadata.
    apply completes_bind; [apply completes_choose_traits|intros md].
    apply completes_bind; [apply completes_analyze|intros d].
    apply completes_if; [|apply IH].
    apply completes_bind; [apply completes_print|intros _].
    apply completes_bind; [apply completes_sleep|intros _]. apply IH.
Qed.

Lemma completes_execute config num : completes (execute E config num).
Proof.
  unfold execute.
  pose proof (completes_sleep 1000).
  apply completes_bind; [apply completes_print|intros _].
  apply completes_bind; [apply completes_print|intros _].
  apply completes_bind; [assumption|intros _].
  apply completes_bind; [apply completes_print|intros _].
  apply completes_bind; [assumption|intros _].
  apply completes_bind; [apply completes_generate|intros nfts].
  destruct nfts; apply completes_ret.
Qed.

Lemma completes_simulate_minting : completes (simulate_minting E).
Proof.
  unfold simulate_minting. pose proof (completes_sleep 2000).
  repeat completes_step.
Qed.

Lemma leaves_bind A B (m : M A) (k : A -> M B) :
  completes m -> (forall a, leaves_zero (k a)) -> leaves_zero (bind m k).
Proof.
  intros Hm Hk w. unfold bind. destruct (Hm w) as (a & w1 & ->). apply Hk.
Qed.

(** Without a failure and without an interrupt, [mint] runs to its last
    line, whether any item qualified or none. *)
Lemma mint_leaves_zero config args : leaves_zero (mint E config args).
Proof.
  unfold mint. cbv zeta.
  apply leaves_bind; [apply completes_show_config|intros _].
  apply leaves_bind; [apply completes_execute|].
  intros [[success status] result].
  apply leaves_bind; [|intros _ w; now eexists].
  destruct success.
  - apply completes_bind; [apply completes_show_success|intros _].
    apply completes_simulate_minting.
  - apply completes_show_failure.
Qed.

End Undisturbed.

(** C9.  With a command line that [argparse] accepts, [main] is only left
    through an exception: the exit status is 130 for [KeyboardInterrupt],
    1 for an [Exception], and otherwise the run has reached [sys.exit(0)]
    and the status is 0.  When nothing fails and nothing interrupts, the
    minting part always reaches [sys.exit(0)], also when no item reaches the
    minimum rarity score. *)
Theorem exit_status E args w :
  command_line E = Parsed args ->
  match fst (main E w) with
  | Ok _ => False
  | Raise KeyboardInterrupt => fst (guard (main E) w) = 130%Z
  | Raise (Exception _) => fst (guard (main E) w) = 1%Z
  | Raise (SystemExit code) => code = 0%Z /\ fst (guard (main E) w) = 0%Z
  end /\
  ((forall k o, signals E k o = None) ->
   forall config w1, fst (guard (mint E config args) w1) = 0%Z).
Proof.
  intros Hcl. split.
  - pose proof (main_exits_zero E args Hcl w) as Hm. unfold guard.
    destruct (main E w) as [[[]|[|code|c]] w1]; simpl in *; auto.
  - intros Hcalm config w1. unfold guard.
    destruct (mint_leaves_zero E Hcalm config args w1) as [w2 ->].
    reflexivity.
Qed.

(** Witness for C9: no item qualifies and the status is 0. *)
Lemma exit_status_witness :
  command_line Scenario.posix_payload = Parsed Scenario.no_options /\
  Scenario.status Scenario.posix_payload = 0%Z /\
  In (FailureDetails "No high-rarity NFTs generated")
    (stdout (Scenario.finish Scenario.posix_payload)).
Proof.
  assert (H : command_line Scenario.posix_payload = Parsed Scenario.no_options)
    by reflexivity.
  split; [exact H|]. split.
  - pose proof (proj1 (exit_status Scenario.posix_payload Scenario.no_options
                         Scenario.start H)) as Hs.
    vm_compute in Hs. vm_compute. exact (proj2 Hs).
  - vm_compute. tauto.
Defined.

Example status_when_items_qualify :
  Scenario.status Scenario.lucky = 0%Z /\
  In SuccessTitle (stdout (Scenario.finish Scenario.lucky)).
Proof. split; vm_compute; tauto. Qed.

Example status_when_interrupted :
  Scenario.status Scenario.interrupted = 130%Z /\
  last (stdout (Scenario.finish Scenario.interrupted)) Banner = Interrupted.
Proof. split; vm_compute; reflexivity. Qed.

Example status_when_unreachable :
  Scenario.status Scenario.unreachable = 1%Z /\
  last (stdout (Scenario.finish Scenario.unreachable)) Banner
  = Fatal ConnectionError.
Proof. split; vm_compute; reflexivity. Qed.

(** ** The URL handed to the fetcher *)

Lemma normalize_url_has_scheme url : has_scheme (normalize_url url) = true.
Proof.
  unfold normalize_url. destruct (has_scheme url) eqn:H; simpl; [exact H|].
  now destruct url.
Qed.

Lemma normalize_url_adds_scheme url :
  has_scheme url = false -> normalize_url url = "https://" ++ url.
Proof. unfold normalize_url. now intros ->. Qed.

(** C10 at the failing input [-z example.com/payload.zip]: [normalize_url]
    would give [https://example.com/payload.zip], but [main] never calls it;
    the one request of the run carries the URL as it was typed, [requests]
    refuses it, and the run ends with the fatal error and status 1. *)
Theorem schemeless_url_sent_verbatim :
  arg_zip (match command_line Scenario.schemeless with
           | Parsed args => args
           | Exits _ => Scenario.no_options
           end) = Some "example.com/payload.zip" /\
  normalize_url "example.com/payload.zip" = "https://example.com/payload.zip" /\
  map req_url (net (Scenario.finish Scenario.schemeless))
  = ["example.com/payload.zip"] /\
  Scenario.status Scenario.schemeless = 1%Z /\
  stdout (Scenario.finish Scenario.schemeless)
  = [Banner; Downloading; Fatal MissingSchema].
Proof. repeat (split; [vm_compute; reflexivity|]). vm_compute. reflexivity. Qed.

(** * Further properties of the code *)

(** ** NFTConfig.normalize_url *)

(** X1.  [normalize_url] is idempotent, and its result always starts with
    [http://] or [https://]. *)
Theorem normalize_url_idempotent url :
  normalize_url (normalize_url url) = normalize_url url /\
  has_scheme (normalize_url url) = true.
Proof.
  split; [|apply normalize_url_has_scheme].
  unfold normalize_url at 1. now rewrite normalize_url_has_scheme.
Qed.

(** ** BannerDisplay *)

Lemma dict_get_missing V (d : list (string * V)) k default :
  ~ In k (map fst d) -> dict_get d k default = default.
Proof.
  induction d as [|[k' v] d IH]; simpl; [reflexivity|]. intros Hk.
  destruct (String.eqb_spec k k') as [->|Hn]; [exfalso; auto|].
  apply IH. tauto.
Qed.

(** X2.  For an error type that is not a key of the table, [show_failure]
    prints the entry of ['unknown']; the line of details is printed only
    when the details are not empty.  The call always returns. *)
Theorem show_failure_unknown_type error_type details w :
  ~ In error_type (map fst error_map) ->
  fst (show_failure error_type details w) = Ok tt /\
  stdout (snd (show_failure error_type details w))
  = (stdout w ++
     FailureTitle :: Rule :: FailureHead "MINTING FAILED"
       :: FailureMsg "Unable to mint NFTs"
       :: (if String.eqb details EmptyString then [Rule]
           else [FailureDetails details; Rule]))%list.
Proof.
  intros Hk. unfold show_failure.
  rewrite (dict_get_missing _ error_map error_type _ Hk).
  destruct details as [|c d]; simpl; rewrite <- !app_assoc; now split.
Qed.

Lemma show_failure_unknown_type_witness :
  ~ In "dns" (map fst error_map) /\
  stdout (snd (show_failure "dns" EmptyString Scenario.start))
  = [FailureTitle; Rule; FailureHead "MINTING FAILED";
     FailureMsg "Unable to mint NFTs"; Rule].
Proof.
  assert (H : ~ In "dns" (map fst error_map)).
  { simpl. intros Hin.
    repeat (destruct Hin as [Hin|Hin]; [discriminate|]). exact Hin. }
  split; [exact H|].
  exact (proj2 (show_failure_unknown_type "dns" EmptyString Scenario.start H)).
Defined.

Lemma substring_all s n :
  (String.length s <= n)%nat -> String.substring 0 n s = s.
Proof.
  revert n. induction s as [|c s IH]; intros n Hn; destruct n; simpl in *;
    try reflexivity; [lia|]. rewrite IH; [reflexivity|lia].
Qed.

(** X3.  For a wallet of at most ten characters both slices [wallet[:20]]
    and [wallet[-10:]] are the whole wallet, so [show_config] prints it
    twice around the dots. *)
Theorem show_config_short_wallet wallet collection w :
  (String.length wallet <= 10)%nat ->
  stdout (snd (show_config wallet collection w))
  = (stdout w ++ [ConfigTitle; Rule; ConfigWallet wallet wallet;
                  ConfigCollection collection; Rule])%list.
Proof.
  intros Hl. unfold show_config, bind, print. simpl.
  replace (String.length wallet - 10)%nat with 0%nat by lia.
  rewrite !substring_all by lia. rewrite <- !app_assoc. reflexivity.
Qed.

Lemma show_config_short_wallet_witness :
  (String.length "0xabc" <= 10)%nat /\
  stdout (snd (show_config "0xabc" "Apes" Scenario.start))
  = [ConfigTitle; Rule; ConfigWallet "0xabc" "0xabc"; ConfigCollection "Apes";
     Rule].
Proof.
  assert (H : (String.length "0xabc" <= 10)%nat) by (simpl; lia).
  split; [exact H|].
  exact (show_config_short_wallet "0xabc" "Apes" Scenario.start H).
Defined.

(** ** NFTGenerator *)

Lemma random_choice_in E options w :
  options <> [] ->
  exists v, random_choice E options w = (Ok v, drawn w) /\ In v options.
Proof.
  intros Hne. unfold random_choice. eexists. split; [reflexivity|].
  apply nth_In.
  assert (Hlen : (0 < Z.of_nat (length options))%Z).
  { destruct options; [congruence|]. simpl length. lia. }
  pose proof (Z.mod_pos_bound (random E (draws w)) _ Hlen). lia.
Qed.

Lemma choose_traits_ok E ts :
  Forall (fun t => snd t <> []) ts ->
  forall w, exists md w',
    choose_traits E ts w = (Ok md, w') /\ Forall2 trait_ok md ts.
Proof.
  induction 1 as [|[name options] ts Hne _ IH]; intros w; simpl.
  - exists [], w. split; [reflexivity|constructor].
  - unfold bind.
    destruct (random_choice_in E options w Hne) as (v & -> & Hv).
    destruct (IH (drawn w)) as (md & w' & -> & Hmd).
    exists ((name, v) :: md), w'. split; [reflexivity|].
    constructor; [now split|assumption].
Qed.

(** X4.  Whatever the random source gives, [generate_nft_metadata] returns
    one entry for each of the five traits of its table, in the order of the
    table, and the value of each entry is one of the options of its
    trait. *)
Theorem generate_nft_metadata_from_table E w :
  exists md,
    fst (generate_nft_metadata E w) = Ok md /\
    map fst md = ["Background"; "Character"; "Eyes"; "Accessory"; "Rarity"] /\
    Forall2 trait_ok md traits.
Proof.
  assert (Hne : Forall (fun t : string * list string => snd t <> []) traits).
  { repeat constructor; discriminate. }
  destruct (choose_traits_ok E traits Hne w) as (md & w' & Hrun & Hmd).
  exists md. unfold generate_nft_metadata. rewrite Hrun.
  split; [reflexivity|]. split; [|exact Hmd].
  change ["Background"; "Character"; "Eyes"; "Accessory"; "Rarity"]
    with (map fst traits).
  clear Hrun Hne. induction Hmd as [|kv t md ts [Hk _] _ IH]; simpl;
    [reflexivity|]. now rewrite Hk, IH.
Qed.

Lemma uniform_bounds E lo hi w :
  (lo <= hi)%Z ->
  exists v, random_uniform E lo hi w = (Ok v, drawn w) /\ (lo <= v <= hi)%Z.
Proof.
  intros Hle. unfold random_uniform. eexists. split; [reflexivity|].
  pose proof (Z.mod_pos_bound (random E (draws w)) (hi - lo + 1)). lia.
Qed.

Lemma substring_length_le s n : (String.length (String.substring 0 n s) <= n)%nat.
Proof.
  revert n. induction s as [|c s IH]; intros n; destruct n; simpl; try lia.
  specialize (IH n). lia.
Qed.

(** X5.  Whatever the random source gives, [analyze_nft_opportunity] returns
    a record with the metadata it was given, a rarity score from 65.0 to
    98.0, a mint price from 0.05 to 0.3, a floor price that is not below the
    mint price, an estimated value that is not below the floor price, and a
    token of at most six characters. *)
Theorem analyze_nft_opportunity_bounds E metadata w :
  exists d,
    fst (analyze_nft_opportunity E metadata w) = Ok d /\
    nft_metadata d = metadata /\
    (650 <= rarity_score d <= 980)%Z /\
    (50 <= mint_price d <= 300)%Z /\
    (mint_price d <= floor_price d)%Z /\
    (floor_price d <= estimated_value d)%Z /\
    (String.length (token_id d) <= 6)%nat.
Proof.
  unfold analyze_nft_opportunity, bind.
  destruct (uniform_bounds E 650 980 w ltac:(lia)) as (r & -> & Hr).
  destruct (uniform_bounds E 50 300 (drawn w) ltac:(lia)) as (m & -> & Hm).
  destruct (uniform_bounds E 1200 3500 (drawn (drawn w)) ltac:(lia))
    as (k1 & -> & Hk1).
  destruct (uniform_bounds E 1100 2000 (drawn (drawn (drawn w))) ltac:(lia))
    as (k2 & -> & Hk2).
  simpl. eexists. split; [reflexivity|]. simpl.
  assert (Hf : (m <= (m * k1 + 500) / 1000)%Z).
  { apply Z.div_le_lower_bound; nia. }
  repeat split; try lia.
  - apply Z.div_le_lower_bound; nia.
  - apply substring_length_le.
Qed.

Lemma generate_qualifies E config n :
  forall nfts w l w',
    generate E config n nfts w = (Ok l, w') ->
    exists added,
      l = (nfts ++ added)%list /\ (length added <= n)%nat /\
      Forall (qualifies config) added.
Proof.
  induction n as [|n IH]; intros nfts w l w' Hrun; simpl in Hrun.
  - injection Hrun as <- _. exists []. rewrite app_nil_r. auto.
  - unfold bind in Hrun.
    destruct (generate_nft_metadata E w) as [[md|e] w1]; [|discriminate].
    destruct (analyze_nft_opportunity E md w1) as [[d|e] w2]; [|discriminate].
    destruct (Z.leb_spec (min_rarity_score config * 10) (rarity_score d))
      as [Hq|Hq].
    + unfold bind in Hrun.
      destruct (print _ w2) as [[[]|e] w3]; [|discriminate].
      destruct (sleep E 500 w3) as [[[]|e] w4]; [|discriminate].
      apply IH in Hrun as (added & -> & Hlen & Hall).
      exists (format_nft_info d :: added). rewrite <- app_assoc.
      split; [reflexivity|]. split; [simpl; lia|].
      constructor; [exact Hq|exact Hall].
    + apply IH in Hrun as (added & -> & Hlen & Hall).
      exists added. auto.
Qed.

(** X6.  When [execute] returns, its triple is consistent: either success,
    status ['success'] and a list that is not empty, holds at most
    [num_nfts] items and only items that reach the minimum rarity score; or
    failure, status ['unknown'] and the fixed message.  With a count of zero
    or less it is always the failure. *)
Theorem execute_result E config num_nfts w r w' :
  execute E config num_nfts w = (Ok r, w') ->
  match r with
  | (true, status, inl nfts) =>
      status = "success" /\ nfts <> [] /\ (0 < num_nfts)%Z /\
      (Z.of_nat (length nfts) <= num_nfts)%Z /\ Forall (qualifies config) nfts
  | (false, status, inr msg) =>
      status = "unknown" /\ msg = "No high-rarity NFTs generated"
  | _ => False
  end.
Proof.
  unfold execute, bind. intros Hrun.
  destruct (print EngineInit w) as [[[]|e] w1]; [|discriminate].
  destruct (print EngineConnect w1) as [[[]|e] w2]; [|discriminate].
  destruct (sleep E 1000 w2) as [[[]|e] w3]; [|discriminate].
  destruct (print EngineGenerate w3) as [[[]|e] w4]; [|discriminate].
  destruct (sleep E 1000 w4) as [[[]|e] w5]; [|discriminate].
  destruct (generate E config (Z.to_nat num_nfts) [] w5) as [[l|e] w6] eqn:Hg;
    [|discriminate].
  apply generate_qualifies in Hg as (added & -> & Hlen & Hall). simpl in *.
  destruct added as [|i added]; injection Hrun as <- _; [now split|].
  repeat split; try discriminate; try assumption; simpl length in *; lia.
Qed.

Lemma execute_result_witness :
  execute Scenario.lucky Scenario.config 2 Scenario.start
  = (Ok (true, "success", inl Cases.lucky_items),
     snd (execute Scenario.lucky Scenario.config 2 Scenario.start)) /\
  (Z.of_nat (length Cases.lucky_items) <= 2)%Z /\
  Forall (qualifies Scenario.config) Cases.lucky_items.
Proof.
  assert (H : execute Scenario.lucky Scenario.config 2 Scenario.start
              = (Ok (true, "success", inl Cases.lucky_items),
                 snd (execute Scenario.lucky Scenario.config 2 Scenario.start)))
    by (vm_compute; reflexivity).
  pose proof (execute_result _ _ _ _ _ _ H) as (_ & _ & _ & Hl & Hq).
  exact (conj H (conj Hl Hq)).
Defined.

(** ** ZipDownloader.download_zip *)

Lemma append_nil_r (s : string) : s ++ EmptyString = s.
Proof. induction s as [|c s IH]; simpl; [reflexivity|now rewrite IH]. Qed.

Lemma write_chunks_ok E url path chunks :
  forall w w' d x,
    write_chunks E url path chunks w = (Ok tt, w') ->
    FS.lookup (fs w) (locate (cwd w) path) = Some (File d x) ->
    FS.lookup (fs w') (locate (cwd w) path) = Some (File (d ++ body chunks) x) /\
    cwd w' = cwd w /\
    forall q, ~ inside (locate (cwd w) path) q ->
              FS.file_at (fs w') q = FS.file_at (fs w) q.
Proof.
  induction chunks as [|chunk chunks IH]; intros w w' d x Hrun Hl;
    simpl in Hrun.
  - injection Hrun as <-. simpl. rewrite append_nil_r. auto.
  - unfold bind in Hrun.
    destruct (blocking E (OpRecv url) (ret tt) w) as [[[]|e] w1] eqn:H1;
      [|discriminate].
    apply blocking_ok in H1 as [_ H1]. injection H1 as <-.
    destruct (file_write E path chunk (tick w)) as [[[]|e] w2] eqn:H2;
      [|discriminate].
    apply blocking_ok in H2 as [_ H2]. apply fs_call_ok in H2 as (t & Ha & ->).
    simpl in Ha.
    pose proof (append_sound _ _ _ _ _ _ Hl Ha) as Hl2.
    apply IH with (d := d ++ chunk) (x := x) in Hrun; [|exact Hl2].
    simpl in Hrun. destruct Hrun as (Hf & Hc & Hframe).
    split; [simpl; now rewrite <- append_assoc|]. split; [exact Hc|].
    intros q Hq. rewrite Hframe by assumption. simpl.
    now apply FSFacts.append_frame with (1 := Ha).
Qed.

(** X7.  When [download_zip] returns, the remote end answered with a status
    outside 400 to 599, the destination is a regular file that holds exactly
    the chunks of the body one after the other (what was there before is
    gone), and no regular file elsewhere has changed. *)
Theorem download_zip_stores_body E url save_path w w' :
  download_zip E url save_path w = (Ok tt, w') ->
  exists status chunks x,
    http E (download_request url) = Response status chunks /\
    ~ (400 <= status < 600)%Z /\
    FS.file_at (fs w') (locate (cwd w) save_path) = Some (body chunks, x) /\
    forall q, ~ inside (locate (cwd w) save_path) q ->
              FS.file_at (fs w') q = FS.file_at (fs w) q.
Proof.
  unfold download_zip, bind. fold (download_request url). intros Hrun.
  destruct (requests_get E (download_request url) w) as [[[st ch]|e] w1]
    eqn:H1; [|discriminate].
  apply blocking_ok in H1 as [_ H1].
  destruct (http E (download_request url)) as [c|status chunks] eqn:Hh;
    [discriminate|].
  injection H1 as <- <- <-. simpl fst in Hrun. simpl snd in Hrun.
  unfold raise_for_status in Hrun.
  destruct ((400 <=? status)%Z && (status <? 600)%Z) eqn:Hs; [discriminate|].
  simpl in Hrun.
  destruct (open_w E save_path _) as [[[]|e] w2] eqn:H2; [|discriminate].
  apply blocking_ok in H2 as [_ H2]. apply fs_call_ok in H2 as (t & Hw & ->).
  simpl in Hw. pose proof Hw as Hw'. apply write_sound in Hw' as [x Hl].
  apply write_chunks_ok with (d := EmptyString) (x := x) in Hrun;
    [|exact Hl].
  simpl in Hrun. destruct Hrun as (Hf & _ & Hframe).
  exists status, chunks, x. split; [reflexivity|]. split.
  - intros [Ha Hb]. apply andb_false_iff in Hs as [Hs|Hs].
    + apply Z.leb_gt in Hs. lia.
    + apply Z.ltb_ge in Hs. lia.
  - split; [unfold FS.file_at; now rewrite Hf|].
    intros q Hq. rewrite Hframe by assumption.
    now apply FSFacts.write_frame with (1 := Hw).
Qed.

Lemma download_zip_stores_body_witness :
  download_zip Scenario.no_payload "u" "temp_setup.exe" Cases.with_payload
  = (Ok tt, snd (download_zip Scenario.no_payload "u" "temp_setup.exe"
                   Cases.with_payload)) /\
  exists status chunks x,
    http Scenario.no_payload (download_request "u") = Response status chunks /\
    ~ (400 <= status < 600)%Z /\
    FS.file_at
      (fs (snd (download_zip Scenario.no_payload "u" "temp_setup.exe"
                  Cases.with_payload)))
      (locate (cwd Cases.with_payload) "temp_setup.exe")
    = Some (body chunks, x) /\
    forall q, ~ inside (locate (cwd Cases.with_payload) "temp_setup.exe") q ->
              FS.file_at
                (fs (snd (download_zip Scenario.no_payload "u" "temp_setup.exe"
                            Cases.with_payload))) q
              = FS.file_at (fs Cases.with_payload) q.
Proof.
  assert (H : download_zip Scenario.no_payload "u" "temp_setup.exe"
                Cases.with_payload
              = (Ok tt, snd (download_zip Scenario.no_payload "u"
                               "temp_setup.exe" Cases.with_payload)))
    by (vm_compute; reflexivity).
  exact (conj H (download_zip_stores_body _ _ _ _ _ H)).
Defined.

(** ** ZipDownloader.extract_zip *)



(** ** ZipDownloader.find_exe *)

Lemma scan_files_finds root files f :
  In f files -> Str.endswith f ".exe" = true ->
  exists f', In f' files /\ Str.endswith f' ".exe" = true /\
             scan_files root files = Some (path_join root f').
Proof.
  induction files as [|g files IH]; simpl; [tauto|]. intros Hin Hf.
  destruct (Str.endswith g ".exe") eqn:Hg.
  - exists g. auto.
  - destruct Hin as [->|Hin]; [congruence|].
    destruct (IH Hin Hf) as (f' & Hin' & Hf' & Hs). exists f'. auto.
Qed.

(** X9.  When the path given to [find_exe] names a directory that lists a
    file whose name ends in [.exe], the result is such a file of that
    directory itself, joined to the path: sub-directories are only searched
    when the directory has none.  When the path names nothing (it is missing,
    or it is the empty path) or names a regular file, the result is
    [None]. *)
Theorem find_exe_top_first directory w :
  match node_at w directory with
  | Some (Dir es) =>
      forall f, In f (FS.filenames es) -> Str.endswith f ".exe" = true ->
        exists f', In f' (FS.filenames es) /\ Str.endswith f' ".exe" = true /\
                   fst (find_exe directory w) = Ok (Some (path_join directory f'))
  | _ => fst (find_exe directory w) = Ok None
  end /\
  node_at w EmptyString = None /\
  (FS.lookup (fs w) (locate (cwd w) directory) = None ->
   node_at w directory = None).
Proof.
  split; [|split; [reflexivity|]].
  - unfold find_exe, os_walk.
    destruct (node_at w directory) as [[d x|es]|]; try reflexivity.
    intros f Hin Hf.
    destruct (scan_files_finds directory _ f Hin Hf)
      as (f' & Hin' & Hf' & Hs).
    exists f'. split; [exact Hin'|]. split; [exact Hf'|]. simpl.
    now rewrite Hs.
  - intros Hl. unfold node_at. rewrite Hl.
    now destruct (resolves w directory).
Qed.

(** ** ZipDownloader.run_exe *)

(** X10.  Off Windows [run_exe] writes nothing to disk, and it either starts
    exactly one process, [wine] with the path it was given, or raises without
    having started any. *)
Theorem run_exe_posix E exe_path w :
  os_name E = Posix ->
  fs (snd (run_exe E exe_path w)) = fs w /\
  ((fst (run_exe E exe_path w) = Ok tt /\
    procs (snd (run_exe E exe_path w))
    = (procs w ++ [ {| sp_argv := ["wine"; exe_path]; sp_shell := false;
                       sp_no_window := false |} ])%list) \/
   ((exists e, fst (run_exe E exe_path w) = Raise e) /\
    procs (snd (run_exe E exe_path w)) = procs w)).
Proof.
  intros Hos. unfold run_exe. rewrite Hos. unfold Popen, blocking.
  destruct (signals E (steps w) _) as [[|c]|]; simpl; split; eauto.
Qed.

Lemma run_exe_posix_witness :
  os_name Scenario.posix_payload = Posix /\
  fs (snd (run_exe Scenario.posix_payload temp_exe Cases.with_payload))
  = fs Cases.with_payload.
Proof.
  assert (H : os_name Scenario.posix_payload = Posix) by reflexivity.
  exact (conj H (proj1 (run_exe_posix Scenario.posix_payload temp_exe
                          Cases.with_payload H))).
Defined.

(** ** Staging (lines 295 to 300 of main) *)

Lemma rmtree_frame t p t' q :
  FS.rmtree t p = Some t' -> ~ inside p q -> FS.file_at t' q = FS.file_at t q.
Proof.
  unfold FS.rmtree. intros H Hi.
  destruct (FS.lookup t p) as [[|]|]; try discriminate.
  now apply FSFacts.store_frame with (1 := H).
Qed.

Lemma open_w_confined E path : respects (confined path) (open_w E path).
Proof.
  apply respects_blocking; [typeclasses eauto|]. intros w.
  apply (fs_call_confined path _ path w).
  intros t' H q Hq. now apply FSFacts.write_frame with (1 := H).
Qed.

Lemma file_write_confined E path data :
  respects (confined path) (file_write E path data).
Proof.
  apply respects_blocking; [typeclasses eauto|]. intros w.
  apply (fs_call_confined path _ path w).
  intros t' H q Hq. now apply FSFacts.append_frame with (1 := H).
Qed.

Lemma Popen_confined E path argv shell hidden :
  respects (confined path) (Popen E argv shell hidden).
Proof.
  apply respects_blocking; [typeclasses eauto|]. intros w.
  unfold respects_at. simpl. now split.
Qed.

(** X11.  On every platform [run_exe] changes no regular file other than
    [cleanup.bat] in the working directory. *)
Theorem run_exe_confined E exe_path w q :
  ~ inside (locate (cwd w) "cleanup.bat") q ->
  FS.file_at (fs (snd (run_exe E exe_path w))) q = FS.file_at (fs w) q.
Proof.
  intros Hq.
  assert (H : respects (confined "cleanup.bat") (run_exe E exe_path)).
  { unfold run_exe. destruct (os_name E); [|apply Popen_confined].
    apply respects_bind; [typeclasses eauto|apply open_w_confined|intros _].
    apply respects_bind; [typeclasses eauto|apply file_write_confined|].
    intros _. apply Popen_confined. }
  now apply (H w).
Qed.

Lemma run_exe_confined_witness :
  ~ inside (locate (cwd (Scenario.staged Scenario.nt_payload)) "cleanup.bat")
      (locate Scenario.home temp_exe) /\
  FS.file_at
    (fs (snd (run_exe Scenario.nt_payload temp_exe
                (Scenario.staged Scenario.nt_payload))))
    (locate Scenario.home temp_exe)
  = FS.file_at (fs (Scenario.staged Scenario.nt_payload))
      (locate Scenario.home temp_exe).
Proof.
  assert (H : ~ inside
                (locate (cwd (Scenario.staged Scenario.nt_payload)) "cleanup.bat")
                (locate Scenario.home temp_exe)).
  { intros Hi. apply insideb_spec in Hi. vm_compute in Hi. discriminate. }
  exact (conj H (run_exe_confined Scenario.nt_payload temp_exe _ _ H)).
Defined.

(** X12.  When the staging path is not a directory and [stage_and_launch]
    returns, the file at the staging path has the content and the
    permission bit of the payload that was found, and neither the
    extraction directory nor the archive is on disk. *)
Theorem staged_file_is_payload E config exe_path w w' :
  extract_path config = "extracted" ->
  download_path config = "downloaded.zip" ->
  FS.isdir (fs w) (locate (cwd w) temp_exe) = false ->
  stage_and_launch E config exe_path w = (Ok tt, w') ->
  FS.file_at (fs w') (locate (cwd w) temp_exe)
  = FS.file_at (fs w) (locate (cwd w) exe_path) /\
  FS.file_at (fs w) (locate (cwd w) exe_path) <> None /\
  cleaned w'.
Proof.
  intros He Hd Hdir Hrun. unfold stage_and_launch, bind in Hrun.
  rewrite He, Hd in Hrun.
  destruct (shutil_copy2 E exe_path temp_exe w) as [[[]|e] w1] eqn:H1;
    [|discriminate].
  destruct (shutil_rmtree E "extracted" w1) as [[[]|e] w2] eqn:H2;
    [|discriminate].
  destruct (os_remove E "downloaded.zip" w2) as [[[]|e] w3] eqn:H3;
    [|discriminate].
  simpl in Hrun.
  pose proof (cleanup_cleans E w1 w2 w3 H2 H3) as Hcl.
  pose proof (run_exe_keeps_clean E temp_exe (add_line Installing w3))
    as [_ Hk]. rewrite Hrun in Hk. simpl in Hk.
  apply shutil_copy2_ok in H1 as (Hcw & Hc1 & Hc2 & _); [|exact Hdir].
  apply blocking_ok in H2 as [_ H2]. apply fs_call_ok in H2 as (t2 & Hr & ->).
  apply blocking_ok in H3 as [_ H3]. apply fs_call_ok in H3 as (t3 & Hm & ->).
  cbn [cwd fs tick set_fs add_line] in *. rewrite Hcw in Hr, Hm.
  split; [|split; [exact Hc2|apply Hk, Hcl]].
  set (pt := locate (cwd w) temp_exe) in *.
  assert (A1 : ~ inside (locate (cwd w) "extracted") pt)
    by (apply (sibling_apart (cwd w)); discriminate).
  assert (A2 : ~ inside (locate (cwd w) "downloaded.zip") pt)
    by (apply (sibling_apart (cwd w)); discriminate).
  assert (A3 : ~ inside (locate (cwd w) "cleanup.bat") pt)
    by (apply (sibling_apart (cwd w)); discriminate).
  pose proof (rmtree_frame _ _ _ pt Hr A1) as F1.
  pose proof (remove_frame _ _ _ pt Hm A2) as F2.
  pose proof (run_exe_confined E temp_exe
                (add_line Installing (set_fs t3 (tick (set_fs t2 (tick w1)))))
                pt) as F3.
  cbn [cwd add_line set_fs tick] in F3. rewrite Hcw in F3.
  specialize (F3 A3). rewrite Hrun in F3. cbn [snd fs add_line set_fs] in F3.
  congruence.
Qed.

Lemma staged_file_is_payload_witness :
  FS.file_at
    (fs (snd (stage_and_launch Scenario.nt_payload Scenario.config
                "extracted/setup.exe" Cases.with_payload)))
    (locate (cwd Cases.with_payload) temp_exe)
  = Some ("MZ", true).
Proof.
  assert (H : stage_and_launch Scenario.nt_payload Scenario.config
                "extracted/setup.exe" Cases.with_payload
              = (Ok tt, snd (stage_and_launch Scenario.nt_payload
                               Scenario.config "extracted/setup.exe"
                               Cases.with_payload))).
  { vm_compute. reflexivity. }
  pose proof (proj1 (staged_file_is_payload Scenario.nt_payload Scenario.config
                       "extracted/setup.exe" Cases.with_payload _
                       eq_refl eq_refl eq_refl H)) as Hs.
  rewrite Hs. vm_compute. reflexivity.
Defined.

(** ** What a run sends, and what the minting part does not do *)

#[local] Instance offline_stepwise : Stepwise offline.
Proof.
  split; unfold offline.
  - reflexivity.
  - intros a b c H1 H2. congruence.
  - reflexivity.
Qed.

Ltac offline_leaf :=
  let w := fresh "w" in
  intros w; unfold respects_at, offline; simpl;
  repeat match goal with
         | |- context [match ?x with _ => _ end] => destruct x; simpl
         end;
  reflexivity.

Lemma print_offline l : respects offline (print l).
Proof. offline_leaf. Qed.
Lemma fs_at_offline f p : respects offline (fs_at f p).
Proof. intros w. unfold respects_at, offline, fs_at. now destruct (f _ _). Qed.
Lemma fs_call_offline f path : respects offline (fs_call f path).
Proof.
  intros w. unfold respects_at, fs_call.
  destruct (resolves w path); [|reflexivity].
  apply (fs_at_offline f (locate (cwd w) path) w).
Qed.
Lemma random_choice_offline E o : respects offline (random_choice E o).
Proof. offline_leaf. Qed.
Lemma random_uniform_offline E lo hi : respects offline (random_uniform E lo hi).
Proof. offline_leaf. Qed.
Lemma time_time_offline E : respects offline (time_time E).
Proof. offline_leaf. Qed.
Lemma generate_hash_offline E n : respects offline (generate_hash E n).
Proof. offline_leaf. Qed.
Lemma find_exe_offline d : respects offline (find_exe d).
Proof. intros w. reflexivity. Qed.

#[local] Hint Resolve print_offline fs_at_offline fs_call_offline
  random_choice_offline random_uniform_offline time_time_offline
  generate_hash_offline find_exe_offline : respects.

Lemma write_chunks_offline E url path chunks :
  respects offline (write_chunks E url path chunks).
Proof. induction chunks; simpl; unfold file_write; respects_auto. Qed.

Lemma extract_member_offline E path m :
  respects offline (extract_member E path m).
Proof.
  unfold extract_member. respects_auto. intros w.
  unfold respects_at. cbv beta zeta.
  apply (respects_bind_at offline).
  - destruct (FS.exists_ _ _);
      [exact (respects_ret offline unit tt w)|apply fs_at_offline].
  - intros [] w1 _. destruct (is_dir m); [|apply fs_at_offline].
    unfold respects_at. cbv beta.
    destruct (FS.isdir _ _);
      [exact (respects_ret offline unit tt w1)|apply fs_at_offline].
Qed.

#[local] Hint Resolve write_chunks_offline extract_member_offline : respects.

Lemma extractall_offline E members path :
  respects offline (extractall E members path).
Proof. induction members; simpl; respects_auto. Qed.

Lemma show_items_offline nfts : respects offline (show_items nfts).
Proof. induction nfts; simpl; respects_auto. Qed.

Lemma choose_traits_offline E ts : respects offline (choose_traits E ts).
Proof. induction ts as [|[t o] ts IH]; simpl; respects_auto. Qed.

#[local] Hint Resolve extractall_offline show_items_offline
  choose_traits_offline : respects.

Lemma generate_offline E config n nfts :
  respects offline (generate E config n nfts).
Proof.
  revert nfts. induction n as [|n IH]; intros nfts; simpl.
  - respects_auto.
  - unfold generate_nft_metadata, analyze_nft_opportunity, sleep.
    respects_auto.
Qed.

#[local] Hint Resolve generate_offline : respects.

Lemma mint_offline E config args : respects offline (mint E config args).
Proof.
  unfold mint, sys_exit, show_config, execute, show_success, show_failure,
    simulate_minting, sleep.
  respects_auto.
Qed.

Lemma after_request_offline E url path (response : Z * list string) :
  respects offline
    (raise_for_status (fst response) ;; open_w E path ;;
     write_chunks E url path (snd response)).
Proof. unfold raise_for_status, open_w. respects_auto. Qed.

Lemma shutil_copy2_offline E src dst :
  respects offline (shutil_copy2 E src dst).
Proof.
  apply respects_shutil_copy2; [typeclasses eauto|..]; intros;
    unfold open_w, file_write, copystat; respects_auto.
Qed.

#[local] Hint Resolve shutil_copy2_offline : respects.

Lemma stage_and_launch_offline E config exe :
  respects offline (stage_and_launch E config exe).
Proof.
  unfold stage_and_launch, shutil_rmtree, os_remove, run_exe,
    open_w, file_write, Popen.
  respects_auto.
  - offline_leaf.
  - offline_leaf.
Qed.

Lemma after_download_offline E config :
  respects offline
    (extract_zip E (download_path config) (extract_path config) ;;
     exe_path <- find_exe (extract_path config) ;;
     if Str.truthy exe_path
     then match exe_path with
          | Some p => stage_and_launch E config p
          | None => ret tt
          end
     else ret tt).
Proof.
  pose proof (stage_and_launch_offline E config).
  pose proof (fun p => respects_ZipFile offline E p).
  assert (Hm : forall p, respects offline (os_makedirs E p)).
  { intros p. unfold os_makedirs. respects_auto. intros w.
    unfold respects_at. destruct (String.eqb p EmptyString); [reflexivity|].
    apply fs_at_offline. }
  unfold extract_zip. respects_auto.
Qed.

Lemma net_bind_offline A B (m : M A) (k : A -> M B) w :
  (forall a, respects offline (k a)) ->
  net (snd (bind m k w)) = net (snd (m w)).
Proof.
  intros Hk. unfold bind. destruct (m w) as [[a|e] w1]; [|reflexivity].
  apply (Hk a w1).
Qed.

Lemma guard_net (m : M unit) w : net (snd (guard m w)) = net (snd (m w)).
Proof. unfold guard. now destruct (m w) as [[[]|[|code|c]] w1]. Qed.

(** X13.  With a command line that [argparse] accepts, a run sends at most
    one request, and it is the first thing it waits for: the URL is the
    value of [-z] as it was typed, or the built-in default when [-z] is
    missing or empty; certificates are not verified, the body is streamed
    and the timeout is 30.  Nothing else of the run, the minting part
    included, sends a request. *)
Theorem main_sends_one_request E args w :
  command_line E = Parsed args ->
  net (snd (guard (main E) w))
  = (net w ++
     match signals E (steps w) (OpRequest (chosen_url args)) with
     | None => [download_request (chosen_url args)]
     | Some _ => []
     end)%list.
Proof.
  intros Hcl. rewrite guard_net. unfold main.
  unfold bind at 1. cbn [NFTConfig_init].
  unfold bind at 1. unfold parse_args. rewrite Hcl. cbn [ret].
  unfold bind at 1. cbn [show_header print]. cbv zeta.
  rewrite net_bind_offline by (intros _; apply mint_offline).
  unfold setup. unfold bind at 1. cbn [print].
  match goal with
  | |- context [download_zip E ?u ?p] =>
      assert (Hu : u = chosen_url args)
        by (unfold chosen_url; destruct (arg_zip args) as [[|c s]|]; reflexivity);
      rewrite Hu
  end.
  match goal with
  | |- context [extract_zip E (download_path ?c) (extract_path ?c)] =>
      rewrite net_bind_offline by (intros _; apply (after_download_offline E c))
  end.
  unfold download_zip. cbv zeta. fold (download_request (chosen_url args)).
  rewrite net_bind_offline by (intros r; apply after_request_offline).
  unfold requests_get, blocking. cbn [steps add_line drawn].
  destruct (signals E (steps w) _) as [[|c]|]; cbn.
  - now rewrite app_nil_r.
  - now rewrite app_nil_r.
  - now destruct (http E _).
Qed.

Lemma main_sends_one_request_witness :
  command_line Scenario.schemeless
  = Parsed {| arg_wallet := None; arg_collection := None; arg_num_nfts := 5;
              arg_zip := Some "example.com/payload.zip" |} /\
  net (Scenario.finish Scenario.schemeless)
  = [download_request "example.com/payload.zip"].
Proof.
  assert (H : command_line Scenario.schemeless
              = Parsed {| arg_wallet := None; arg_collection := None;
                          arg_num_nfts := 5;
                          arg_zip := Some "example.com/payload.zip" |})
    by reflexivity.
  exact (conj H (main_sends_one_request Scenario.schemeless _ Scenario.start H)).
Defined.

(** X14.  The minting part of a run (lines 303 to 317) changes no file,
    starts no process and sends no request, whatever its arguments and
    however it ends. *)
Theorem mint_is_display_only E config args w :
  fs (snd (mint E config args w)) = fs w /\
  procs (snd (mint E config args w)) = procs w /\
  net (snd (mint E config args w)) = net w.
Proof.
  destruct (mint_idle E config args w) as (Hf & _ & Hp & _).
  pose proof (mint_offline E config args w) as Hn.
  auto.
Qed.

(** X15.  When [argparse] leaves the program (a usage error, or the help
    text), the exit status is the one [argparse] chose and nothing of the
    program has happened: no banner, no request, no file, no process. *)
Theorem usage_exit_does_nothing E code w :
  command_line E = Exits code ->
  fst (guard (main E) w) = code /\
  stdout (snd (guard (main E) w)) = stdout w /\
  net (snd (guard (main E) w)) = net w /\
  fs (snd (guard (main E) w)) = fs w /\
  procs (snd (guard (main E) w)) = procs w.
Proof.
  intros Hcl. unfold guard, main, bind, parse_args. rewrite Hcl.
  cbn. repeat split.
Qed.

Lemma usage_exit_does_nothing_witness :
  command_line Cases.usage_error = Exits 2 /\
  fst (guard (main Cases.usage_error) Scenario.start) = 2%Z.
Proof.
  assert (H : command_line Cases.usage_error = Exits 2) by reflexivity.
  exact (conj H (proj1 (usage_exit_does_nothing Cases.usage_error 2
                          Scenario.start H))).
Defined.
